(** * petl.io.json: readers and writers between tables and JSON text

    A shallow embedding of [petl/io/json.py] ([fromjson], [JsonView],
    [fromdicts], [DictsView], [tojson], [tojsonarrays], [_writejson],
    [_writeobj]) and the properties of its specification.

    Conventions.
    - Python [str] is a Rocq [string], read as the UTF-8 bytes of the text.
      Byte-wise lexicographic order on UTF-8 coincides with Python's
      code-point order, and so does the substring test.
    - A Python [dict] with text keys is an insertion-ordered association
      list; a Python [set] of text is a [gset string].
    - A generator is a finite tree of events and yields ([proc]); the
      consumer decides how far it is driven. *)

From stdpp Require Import base option list gmap strings sorting pretty.

(** ** Values and exceptions *)

Inductive exn :=
| TypeError
| KeyError
| ValueError
| OtherError (name : string).

(** JSON-like Python values.  A float is carried as its IEEE-754 binary64
    bit pattern; this module never computes with it. *)
#[warnings="-register-all"]
Inductive value :=
| VNone
| VBool (b : bool)
| VInt (n : Z)
| VFloat (bits : Z)
| VStr (s : string)
| VList (l : list value)
| VDict (d : list (string * value)).

Abbreviation dict := (list (string * value)).
Abbreviation row := (list value).

(** Objects a caller passes as positional or keyword arguments. *)
Inductive pyobj :=
| ObjValue (v : value)
| ObjFields (fs : list string)
| ObjOpaque (name : string).

(** ** The error monad of fallible expressions *)

Inductive result (A : Type) :=
| Ok (a : A)
| Err (e : exn).
Arguments Ok {A} a.
Arguments Err {A} e.

#[global] Instance result_ret : MRet result := @Ok.
#[global] Instance result_bind : MBind result :=
  λ A B f m, match m with Ok a => f a | Err e => Err e end.
#[global] Instance result_fmap : FMap result :=
  λ A B f m, match m with Ok a => Ok (f a) | Err e => Err e end.

(** ** Text *)

(** [f in s] on two [str]: substring test. *)
Fixpoint is_substring (f s : string) : bool :=
  if String.prefix f s then true
  else match s with
       | EmptyString => false
       | String _ s' => is_substring f s'
       end.

Definition is_continuation (a : Ascii.ascii) : bool :=
  let n := Ascii.N_of_ascii a in ((128 <=? n) && (n <? 192))%N.

(** Iterating a [str] yields its code points, one at a time. *)
Fixpoint utf8_chars (s : string) : list string :=
  match s with
  | EmptyString => []
  | String a s' =>
      let starts_inside :=
        match s' with String b _ => is_continuation b | EmptyString => false end in
      match utf8_chars s' with
      | c :: cs =>
          if starts_inside then String a c :: cs
          else String a EmptyString :: c :: cs
      | [] => [String a EmptyString]
      end
  end.

(** ** Dictionaries *)

Fixpoint dict_get (d : dict) (k : string) : option value :=
  match d with
  | [] => None
  | (k', v) :: d' => if String.eqb k k' then Some v else dict_get d' k
  end.

Definition dict_contains (d : dict) (k : string) : bool :=
  match dict_get d k with Some _ => true | None => false end.

(** [d[k] = v]: an existing key keeps its position. *)
Fixpoint dict_set (d : dict) (k : string) (v : value) : dict :=
  match d with
  | [] => [(k, v)]
  | (k', v') :: d' =>
      if String.eqb k k' then (k, v) :: d' else (k', v') :: dict_set d' k v
  end.

(** [dict(items)] *)
Definition dict_of_items (items : list (string * value)) : dict :=
  foldl (λ d kv, dict_set d kv.1 kv.2) [] items.

(** [set(o.keys())] *)
Definition key_set (d : dict) : gset string := list_to_set (d.*1).

(** ** Python primitives used on records *)

(** [hasattr(o, 'keys')] *)
Definition has_keys (o : value) : bool :=
  match o with VDict _ => true | _ => false end.

Definition keys_of (o : value) : gset string :=
  match o with VDict d => key_set d | _ => ∅ end.

(** [f in o] for a text [f].  A list contains [f] when one of its elements
    is the same text; numbers, booleans and [None] are not containers. *)
Definition py_contains (o : value) (f : string) : result bool :=
  match o with
  | VDict d => Ok (dict_contains d f)
  | VStr s => Ok (is_substring f s)
  | VList l =>
      Ok (existsb (λ e, match e with VStr s => String.eqb s f | _ => false end) l)
  | _ => Err TypeError
  end.

(** [o[f]] for a text [f]. *)
Definition py_getitem (o : value) (f : string) : result value :=
  match o with
  | VDict d => match dict_get d f with Some v => Ok v | None => Err KeyError end
  | _ => Err TypeError
  end.

(** [for o in result] *)
Definition py_iter (v : value) : result (list value) :=
  match v with
  | VList l => Ok l
  | VStr s => Ok (VStr <$> utf8_chars s)
  | VDict d => Ok (VStr <$> d.*1)
  | _ => Err TypeError
  end.

(** [sorted(hdr)] on a set of text. *)
Definition sorted (s : gset string) : list string :=
  merge_sort String.le (elements s).

(** ** Header derivation and row projection (shared by both readers) *)

(** [[
    hdr = set()
    for o in result:
        if hasattr(o, 'keys'):
            hdr |= set(o.keys())
    ]] *)
Definition collect_keys (records : list value) : gset string :=
  foldl (λ hdr o, if has_keys o then hdr ∪ keys_of o else hdr) ∅ records.

Definition derive_header (records : list value) : list string :=
  sorted (collect_keys records).

(** [tuple(o[f] if f in o else None for f in hdr)]: fields are evaluated
    left to right and the first exception ends the row. *)
Fixpoint project (o : value) (hdr : list string) : result row :=
  match hdr with
  | [] => Ok []
  | f :: fs =>
      c ← py_contains o f;
      v ← (if c : bool then py_getitem o f else Ok VNone);
      vs ← project o fs;
      Ok (v :: vs)
  end.

(** ** Header fields that need not be text

    [fromjson] takes its header from the keywords, where the caller may
    put any object: [tuple(hdr)] then walks whatever it is given, and
    the fields it finds go through [f in o] and [o[f]] as they are. *)

Definition IndexError : exn := OtherError "IndexError".

(** [bool], [int] and [float] compare by numeric value.  A finite number
    is [k * 2^x]. *)
Inductive number :=
| NaN
| Infinity (negative : bool)
| Finite (k x : Z).

(** The number a binary64 bit pattern stands for. *)
Definition float_number (bits : Z) : number :=
  let b := (bits mod 2 ^ 64)%Z in
  let negative := (2 ^ 63 <=? b)%Z in
  let e := ((b / 2 ^ 52) mod 2048)%Z in
  let m := (b mod 2 ^ 52)%Z in
  if (e =? 2047)%Z then (if (m =? 0)%Z then Infinity negative else NaN)
  else
    let k := if (e =? 0)%Z then m else (2 ^ 52 + m)%Z in
    Finite (if negative then (- k)%Z else k)
           (if (e =? 0)%Z then (-1074)%Z else (e - 1075)%Z).

Definition number_of (v : value) : option number :=
  match v with
  | VBool b => Some (Finite (if b then 1 else 0) 0)
  | VInt n => Some (Finite n 0)
  | VFloat bits => Some (float_number bits)
  | _ => None
  end.

Definition number_eq (a b : number) : bool :=
  match a, b with
  | Finite k1 x1, Finite k2 x2 =>
      let x := Z.min x1 x2 in
      (k1 * 2 ^ (x1 - x) =? k2 * 2 ^ (x2 - x))%Z
  | Infinity n1, Infinity n2 => Bool.eqb n1 n2
  | _, _ => false
  end.

(** [a == b] on values that are two distinct objects. *)
Fixpoint py_eq (a b : value) : bool :=
  match a, b with
  | VNone, VNone => true
  | VStr s, VStr t => String.eqb s t
  | VList l, VList l' =>
      (fix all2 (l l' : list value) : bool :=
         match l, l' with
         | [], [] => true
         | x :: l, y :: l' => py_eq x y && all2 l l'
         | _, _ => false
         end) l l'
  | VDict d, VDict d' =>
      (length d =? length d') &&
      (fix all (d : list (string * value)) : bool :=
         match d with
         | [] => true
         | (k, x) :: d =>
             match dict_get d' k with
             | Some y => py_eq x y
             | None => false
             end && all d
         end) d
  | _, _ =>
      match number_of a, number_of b with
      | Some n, Some m => number_eq n m
      | _, _ => false
      end
  end.

(** Lists and dictionaries cannot be hashed. *)
Definition hashable (v : value) : bool :=
  match v with VList _ | VDict _ => false | _ => true end.

(** [f in o] for any field [f]. *)
Definition py_contains_any (o f : value) : result bool :=
  match o with
  | VDict d =>
      if hashable f
      then Ok (match f with VStr s => dict_contains d s | _ => false end)
      else Err TypeError
  | VStr s =>
      match f with
      | VStr t => Ok (is_substring t s)
      | _ => Err TypeError
      end
  | VList l => Ok (existsb (py_eq f) l)
  | _ => Err TypeError
  end.

(** [l[i]] for an integer [i]: a negative index counts from the end. *)
Definition py_index {A} (l : list A) (i : Z) : result A :=
  let j := if (i <? 0)%Z then (i + Z.of_nat (length l))%Z else i in
  if (j <? 0)%Z then Err IndexError
  else match l !! Z.to_nat j with
       | Some x => Ok x
       | None => Err IndexError
       end.

(** The integer a subscript stands for, when it is one. *)
Definition index_of (f : value) : option Z :=
  match f with
  | VInt n => Some n
  | VBool b => Some (if b then 1 else 0)%Z
  | _ => None
  end.

(** [o[f]] for any field [f]. *)
Definition py_getitem_any (o f : value) : result value :=
  match o with
  | VDict d =>
      if hashable f
      then match f with
           | VStr s =>
               match dict_get d s with Some v => Ok v | None => Err KeyError end
           | _ => Err KeyError
           end
      else Err TypeError
  | VList l =>
      match index_of f with
      | Some i => py_index l i
      | None => Err TypeError
      end
  | VStr s =>
      match index_of f with
      | Some i => VStr <$> py_index (utf8_chars s) i
      | None => Err TypeError
      end
  | _ => Err TypeError
  end.

(** [tuple(o[f] if f in o else None for f in hdr)] for any fields. *)
Fixpoint project_any (o : value) (hdr : list value) : result row :=
  match hdr with
  | [] => Ok []
  | f :: fs =>
      c ← py_contains_any o f;
      v ← (if c : bool then py_getitem_any o f else Ok VNone);
      vs ← project_any o fs;
      Ok (v :: vs)
  end.

(** ** Generators and calls as processes

    A [proc] is what a generator body (or a plain function body) does:
    it performs events, yields rows, and ends by returning or raising.
    [Yield r k abort] suspends with [r]; [k] runs on the next [next()],
    [abort] runs when the consumer closes the generator instead
    ([GeneratorExit] raised at the [yield]). *)

Inductive event :=
| EvOpen (mode : string)
| EvWrap
| EvLoad (args : list pyobj) (kwargs : gmap string pyobj)
| EvWrite (text : string)
| EvDetach
| EvClose.

Inductive proc :=
| Stop
| Raise (e : exn)
| Emit (ev : event) (k : proc)
| Yield (r : row) (k : proc) (abort : proc).

Fixpoint emits (evs : list event) (k : proc) : proc :=
  match evs with
  | [] => k
  | ev :: evs' => Emit ev (emits evs' k)
  end.

(** [try: body finally: fin], where the [finally] block only performs
    the events [fin]. *)
Fixpoint try_finally (body : proc) (fin : list event) : proc :=
  match body with
  | Stop => emits fin Stop
  | Raise e => emits fin (Raise e)
  | Emit ev k => Emit ev (try_finally k fin)
  | Yield r k abort => Yield r (try_finally k fin) (try_finally abort fin)
  end.

(** [with source.open(mode) as f: body] *)
Definition with_open (mode : string) (body : proc) : proc :=
  Emit (EvOpen mode) (try_finally body [EvClose]).

Inductive outcome :=
| Exhausted
| Raised (e : exn)
| Closed.

(** Events of a generator that is being closed. *)
Fixpoint unwind (p : proc) : list event :=
  match p with
  | Emit ev k => ev :: unwind k
  | _ => []
  end.

(** The consumer has called [next()] and will call it [more] further
    times before it closes the generator. *)
Fixpoint advance (more : nat) (p : proc) : list event * list row * outcome :=
  match p with
  | Stop => ([], [], Exhausted)
  | Raise e => ([], [], Raised e)
  | Emit ev k => let '(t, rs, o) := advance more k in (ev :: t, rs, o)
  | Yield r k abort =>
      match more with
      | 0 => (unwind abort, [r], Closed)
      | S more' => let '(t, rs, o) := advance more' k in (t, r :: rs, o)
      end
  end.

(** A consumer that calls [next()] at most [n] times and then closes the
    generator.  Closing a generator that was never started runs nothing. *)
Definition consume (n : nat) (p : proc) : list event * list row * outcome :=
  match n with
  | 0 => ([], [], Closed)
  | S more => advance more p
  end.

(** Full iteration, as [list(table)] does. *)
Fixpoint exhaust (p : proc) : list event * list row * outcome :=
  match p with
  | Stop => ([], [], Exhausted)
  | Raise e => ([], [], Raised e)
  | Emit ev k => let '(t, rs, o) := exhaust k in (ev :: t, rs, o)
  | Yield r k _ => let '(t, rs, o) := exhaust k in (t, r :: rs, o)
  end.

(** A plain call: the body has no [yield]. *)
Definition call (p : proc) : list event * outcome :=
  let '(t, _, o) := exhaust p in (t, o).

(** The text that reached the sink. *)
Fixpoint written (t : list event) : string :=
  match t with
  | [] => EmptyString
  | EvWrite s :: t' => s +:+ written t'
  | _ :: t' => written t'
  end.

(** [[
    for o in result:
        row = tuple(o[f] if f in o else None for f in hdr)
        yield row
    ]] *)
Fixpoint yield_rows (hdr : list string) (records : list value) : proc :=
  match records with
  | [] => Stop
  | o :: records' =>
      match project o hdr with
      | Ok r => Yield r (yield_rows hdr records') Stop
      | Err e => Raise e
      end
  end.

(** ** Collaborators

    The JSON codec is Python's standard library and [PY2] comes from
    [petl.compat]; the module is parametric in them.
    - [json_load text args kwargs] is [json.load(f, *args, **kwargs)] on
      a file holding [text];
    - [JSONEncoder args kwargs] builds an encoder, and an encoder maps an
      object to the chunks [iterencode] yields, followed by the exception
      that interrupts it, if any. *)

Abbreviation encoder := (value → list string * option exn).

Class Runtime := {
  PY2 : bool;
  json_load : string → list pyobj → gmap string pyobj → result value;
  JSONEncoder : list pyobj → gmap string pyobj → result encoder;
}.

(** A resolved byte source: [read_source_from_arg] and
    [write_source_from_arg] return it as it is.  [src_bytes] is what a
    reader finds in it. *)
Record source := {
  src_name : string;
  src_bytes : string;
}.

(** ** Keyword dictionaries live in a store

    [**kwargs] is one dictionary object; [self.kwargs] and the local
    [kwargs] of [__init__] are two names for it. *)

Abbreviation store := (gmap nat (gmap string pyobj)).

Definition alloc (σ : store) (d : gmap string pyobj) : nat * store :=
  let l := fresh (dom σ) in (l, <[l:=d]> σ).

(** [d.pop(k, dflt)] on the dictionary at [l]. *)
Definition dict_pop (σ : store) (l : nat) (k : string) (dflt : pyobj)
    : pyobj * store :=
  match σ !! l with
  | Some d => (default dflt (d !! k), <[l:=delete k d]> σ)
  | None => (dflt, σ)
  end.

(** ** Readers *)

Record JsonView := {
  jv_source : source;
  jv_args : list pyobj;
  jv_kwargs : nat;
  jv_missing : pyobj;
  jv_header : pyobj;
}.

(** [JsonView.__init__(self, source, *args, **kwargs)], with [kwargs] the
    location of the keyword dictionary. *)
Definition JsonView_init (src : source) (args : list pyobj) (kwargs : nat)
    (σ : store) : JsonView * store :=
  let '(missing, σ1) := dict_pop σ kwargs "missing" (ObjValue VNone) in
  let '(header, σ2) := dict_pop σ1 kwargs "header" (ObjValue VNone) in
  ({| jv_source := src; jv_args := args; jv_kwargs := kwargs;
      jv_missing := missing; jv_header := header |}, σ2).

(** [fromjson(source, *args, **kwargs)]: the call packs the keywords into
    a fresh dictionary. *)
Definition fromjson (src : source) (args : list pyobj)
    (kwargs : gmap string pyobj) (σ : store) : JsonView * store :=
  let '(l, σ1) := alloc σ kwargs in
  JsonView_init src args l σ1.

(** [self.header is None] *)
Definition is_None (h : pyobj) : bool :=
  match h with ObjValue VNone => true | _ => false end.

(** [tuple(hdr)] for an explicit header: the header is walked as any
    iterable is.  A sequence of field names gives the names; a list gives
    its elements, a text its code points, a dictionary its keys; a
    number, a boolean and an opaque object (a callable or a class) cannot
    be iterated. *)
Definition header_values (h : pyobj) : result (list value) :=
  match h with
  | ObjFields fs => Ok (VStr <$> fs)
  | ObjValue v => py_iter v
  | ObjOpaque _ => Err TypeError
  end.

(** The field names of a header whose fields are all text. *)
Definition text_fields (vs : list value) : option (list string) :=
  mapM (λ v, match v with VStr s => Some s | _ => None end) vs.

(** [[
    for o in result:
        row = tuple(o[f] if f in o else None for f in hdr)
        yield row
    ]]
    for the header [fromjson] is given. *)
Fixpoint yield_rows_any (hdr : list value) (records : list value) : proc :=
  match records with
  | [] => Stop
  | o :: records' =>
      match project_any o hdr with
      | Ok r => Yield r (yield_rows_any hdr records') Stop
      | Err e => Raise e
      end
  end.

Section Readers.
Context `{Runtime}.

(** The body of [JsonView.__iter__] inside [try:]. *)
Definition JsonView_body (self : JsonView) (σ : store) : proc :=
  let kwargs := default ∅ (σ !! jv_kwargs self) in
  Emit (EvLoad (jv_args self) kwargs)
    match json_load (src_bytes (jv_source self)) (jv_args self) kwargs with
    | Err e => Raise e
    | Ok parsed =>
        match (if is_None (jv_header self)
               then (λ records, VStr <$> derive_header records)
                      <$> py_iter parsed
               else header_values (jv_header self)) with
        | Err e => Raise e
        | Ok hdr =>
            Yield hdr
              match py_iter parsed with
              | Err e => Raise e
              | Ok records => yield_rows_any hdr records
              end
              Stop
        end
    end.

(** [JsonView.__iter__] *)
Definition JsonView_iter (self : JsonView) (σ : store) : proc :=
  with_open "rb"
    (if PY2 then try_finally (JsonView_body self σ) []
     else Emit EvWrap (try_finally (JsonView_body self σ) [EvDetach])).

End Readers.

Record DictsView := {
  dv_dicts : list value;
  dv_header : option (list string);
}.

(** [fromdicts(dicts, header=None)] *)
Definition fromdicts (dicts : list value) (header : option (list string))
    : DictsView :=
  {| dv_dicts := dicts; dv_header := header |}.

(** [DictsView.__iter__] *)
Definition DictsView_iter (self : DictsView) : proc :=
  let records := dv_dicts self in
  let hdr := match dv_header self with
             | None => derive_header records
             | Some h => h
             end in
  Yield (VStr <$> hdr) (yield_rows hdr records) Stop.

(** ** Tables handed to the writers *)

(** A table: the header, a sequence of field names, and the data rows. *)
Record table := {
  header : list string;
  rows : list row;
}.

(** [list(table)]: the header row, then the data rows. *)
Definition table_rows (t : table) : list row :=
  (VStr <$> header t) :: rows t.

(** Modelled from the spec: [petl.util.base.data] is not part of the
    sources at hand.  Section 3: the first row of a table is the header,
    the subsequent rows are the data. *)
Definition data (t : table) : list row := rows t.

(** Modelled from the spec: the per-row step of [petl.util.base.dicts].
    Section 4.4: a data row becomes a mapping from header field to row
    value; fields and values are paired by position. *)
Definition asdict (hdr : list string) (r : row) : dict :=
  dict_of_items (zip hdr r).

(** Modelled from the spec: [petl.util.base.dicts] is not part of the
    sources at hand.  Section 4.4: every data row, the header excluded,
    is materialised as a mapping. *)
Definition dicts (t : table) : list dict := asdict (header t) <$> rows t.

(** ** Writers *)

Definition write_opt (text : option string) (k : proc) : proc :=
  match text with
  | Some s => Emit (EvWrite s) k
  | None => k
  end.

(** [_writeobj(encoder, obj, f, prefix, suffix)] *)
Definition _writeobj (enc : encoder) (obj : value)
    (prefix suffix : option string) : proc :=
  write_opt prefix
    (let '(chunks, interrupted) := enc obj in
     emits (EvWrite <$> chunks)
       match interrupted with
       | Some e => Raise e
       | None => write_opt suffix Stop
       end).

Section Writers.
Context `{Runtime}.

(** [_writejson(source, obj, prefix, suffix, *args, **kwargs)] *)
Definition _writejson (src : source) (obj : value)
    (prefix suffix : option string)
    (args : list pyobj) (kwargs : gmap string pyobj) : proc :=
  match JSONEncoder args kwargs with
  | Err e => Raise e
  | Ok enc =>
      with_open "wb"
        (if PY2 then _writeobj enc obj prefix suffix
         else Emit EvWrap
                (try_finally (_writeobj enc obj prefix suffix) [EvDetach]))
  end.

(** [tojson(table, source, prefix, suffix, *args, **kwargs)] *)
Definition tojson (t : table) (src : source) (prefix suffix : option string)
    (args : list pyobj) (kwargs : gmap string pyobj) : proc :=
  let obj := VList (VDict <$> dicts t) in
  _writejson src obj prefix suffix args kwargs.

(** [tojsonarrays(table, source, prefix, suffix, output_header, *args,
    **kwargs)] *)
Definition tojsonarrays (t : table) (src : source)
    (prefix suffix : option string) (output_header : bool)
    (args : list pyobj) (kwargs : gmap string pyobj) : proc :=
  let obj := if output_header
             then VList (VList <$> table_rows t)
             else VList (VList <$> data t) in
  _writejson src obj prefix suffix args kwargs.

End Writers.

(** ** Shapes of processes and traces *)

(** A process that never suspends. *)
Fixpoint yield_free (p : proc) : bool :=
  match p with
  | Stop | Raise _ => true
  | Emit _ k => yield_free k
  | Yield _ _ _ => false
  end.

(** Closing the generator at any of its yields ends it: no [finally]
    block yields again. *)
Fixpoint well_formed (p : proc) : bool :=
  match p with
  | Stop | Raise _ => true
  | Emit _ k => well_formed k
  | Yield _ k abort => well_formed k && yield_free abort
  end.

(** The trace of one scoped use of a byte resource: opened once, wrapped
    for text on Python 3, used, unwrapped, closed. *)
Definition scoped (py2 : bool) (mode : string) (uses : list event) : list event :=
  if py2 then EvOpen mode :: uses ++ [EvClose]
  else EvOpen mode :: EvWrap :: uses ++ [EvDetach; EvClose].

Definition opt_text (text : option string) : list string :=
  match text with Some s => [s] | None => [] end.

Definition concat_text (chunks : list string) : string :=
  foldr String.app EmptyString chunks.

(** ** The two read entry points, side by side *)

Inductive reader :=
| FromDicts (dicts : list value) (header : option (list string))
| FromJson (src : source) (args : list pyobj) (kwargs : gmap string pyobj).

(** The keywords [fromjson] leaves for the parser. *)
Definition parser_kwargs (kwargs : gmap string pyobj) : gmap string pyobj :=
  delete "header" (delete "missing" kwargs).

(** The [header] argument of a read, [None] when it is not given. *)
Definition header_arg (r : reader) : pyobj :=
  match r with
  | FromDicts _ None => ObjValue VNone
  | FromDicts _ (Some fs) => ObjFields fs
  | FromJson _ _ kwargs => default (ObjValue VNone) (kwargs !! "header")
  end.

(** The header a read uses for a given record sequence, when its fields
    are all text: the derived header, or the explicit one as
    [tuple(hdr)] walks it.  It serves to state properties of reads whose
    fields are names; the readers themselves run [header_values].  The
    answer is the exception of [tuple(hdr)] when that raises, and the
    marker below when some field is not text. *)
Definition chosen_header (r : reader) (records : list value)
    : result (list string) :=
  if is_None (header_arg r) then Ok (derive_header records)
  else
    vs ← header_values (header_arg r);
    match text_fields vs with
    | Some fs => Ok fs
    | None => Err (OtherError "a header field is not text")
    end.

Section Reading.
Context `{Runtime}.

(** Iterating the table a read entry point returns. *)
Definition reader_iter (r : reader) : proc :=
  match r with
  | FromDicts ds h => DictsView_iter (fromdicts ds h)
  | FromJson src args kwargs =>
      let '(view, σ) := fromjson src args kwargs ∅ in JsonView_iter view σ
  end.

(** The record sequence a read is over: the given one, or the elements
    of the parsed document. *)
Definition records_read (r : reader) : result (list value) :=
  match r with
  | FromDicts ds _ => Ok ds
  | FromJson src args kwargs =>
      json_load (src_bytes src) args (parser_kwargs kwargs) ≫= py_iter
  end.

(** The resource events of a read that was started. *)
Definition reader_trace (r : reader) : list event :=
  match r with
  | FromDicts _ _ => []
  | FromJson _ args kwargs =>
      scoped PY2 "rb" [EvLoad args (parser_kwargs kwargs)]
  end.

End Reading.

(** What a write hands to the sink, piece by piece: the prefix, the
    chunks the encoder produced, and the suffix unless the encoder was
    interrupted. *)
Definition pieces (enc : encoder) (obj : value)
    (prefix suffix : option string) : list string :=
  opt_text prefix ++ (enc obj).1 ++
  match (enc obj).2 with Some _ => [] | None => opt_text suffix end.

Definition write_outcome (enc : encoder) (obj : value) : outcome :=
  match (enc obj).2 with Some e => Raised e | None => Exhausted end.

(** The text an optional prefix or suffix stands for. *)
Definition opt_string (text : option string) : string :=
  match text with Some s => s | None => EmptyString end.

(** The text a call leaves in the sink. *)
Definition output (p : proc) : string := written (call p).1.

(** The arrays [tojsonarrays] hands to the encoder. *)
Definition arrays (rs : list row) : value := VList (VList <$> rs).

(** The objects [tojson] hands to the encoder. *)
Definition objects (ds : list dict) : value := VList (VDict <$> ds).

(** ** The projection as the specification words it

    Section 4.1: look each header field up in the record and substitute
    the configured missing value where the record has no such field. *)
Definition row_of_record (missing : value) (d : dict) (hdr : list string) : row :=
  (λ f, default missing (dict_get d f)) <$> hdr.

(** The missing value a [fromjson] call configures: the [missing]
    keyword, [None] when it is not given. *)
Definition configured_missing (kwargs : gmap string pyobj) : pyobj :=
  default (ObjValue VNone) (kwargs !! "missing").

(** ** A small concrete runtime, used to run the embedding

    [Demo.chunks] is a compact JSON encoder for the values of this model
    that refuses floats; [Demo.load] reads back the documents of
    [Demo.documents] and rejects every other text as malformed. *)
Module Demo.

Definition dquote : Ascii.ascii := Ascii.ascii_of_nat 34.

Definition quote (s : string) : string :=
  String dquote (s +:+ String dquote EmptyString).

Definition sep (first : bool) : list string :=
  if first then [] else [", "].

Fixpoint chunks (v : value) : list string * option exn :=
  match v with
  | VNone => (["null"], None)
  | VBool b => ([if b then "true" else "false"], None)
  | VInt n => ([pretty n], None)
  | VFloat _ => ([], Some ValueError)
  | VStr s => ([quote s], None)
  | VList [] => (["[]"], None)
  | VList l =>
      let fix items (first : bool) (l : list value) :=
        match l with
        | [] => (["]"], None)
        | x :: l' =>
            let '(c, e) := chunks x in
            match e with
            | Some err => (sep first ++ c, Some err)
            | None => let '(c', e') := items false l' in
                      (sep first ++ c ++ c', e')
            end
        end in
      let '(c, e) := items true l in ("[" :: c, e)
  | VDict [] => (["{}"], None)
  | VDict d =>
      let fix items (first : bool) (d : list (string * value)) :=
        match d with
        | [] => (["}"], None)
        | (k, x) :: d' =>
            let '(c, e) := chunks x in
            match e with
            | Some err => (sep first ++ [quote k; ": "] ++ c, Some err)
            | None => let '(c', e') := items false d' in
                      (sep first ++ [quote k; ": "] ++ c ++ c', e')
            end
        end in
      let '(c, e) := items true d in ("{" :: c, e)
  end.

Definition text_of (v : value) : string :=
  foldr String.app EmptyString (chunks v).1.

Definition records_abc : value :=
  VList [VDict [("a", VInt 1); ("b", VInt 2)];
         VDict [("b", VInt 3); ("c", VInt 4)]].

Definition records_xz : value :=
  VList [VDict [("x", VInt 1); ("z", VInt 9)]].

Definition records_mixed : value :=
  VList [VInt 7; VDict [("k", VBool true)]].

Definition foo_bar : table :=
  {| header := ["foo"; "bar"];
     rows := [[VStr "a"; VInt 1]; [VStr "b"; VInt 2]; [VStr "c"; VInt 2]] |}.

Definition foo_only : table :=
  {| header := ["foo"; "bar"]; rows := [] |}.

Definition dup_header : table :=
  {| header := ["k"; "k"]; rows := [[VInt 1; VInt 2]] |}.

Definition with_float : table :=
  {| header := ["n"; "x"]; rows := [[VInt 1; VFloat 0]] |}.

Definition documents : list value :=
  [ records_abc; records_xz; records_mixed; VList [];
    VList (VDict <$> dicts foo_bar); VList (VDict <$> dicts dup_header) ].

Definition load (text : string) (args : list pyobj)
    (kwargs : gmap string pyobj) : result value :=
  match list_find (λ v, text_of v = text) documents with
  | Some (_, v) => Ok v
  | None => Err ValueError
  end.

Definition runtime (py2 : bool) : Runtime :=
  {| PY2 := py2; json_load := load; JSONEncoder := λ _ _, Ok chunks |}.

Definition file (name : string) (v : value) : source :=
  {| src_name := name; src_bytes := text_of v |}.

Definition malformed : source :=
  {| src_name := "bad.json"; src_bytes := "[1, " |}.

Definition sink : source :=
  {| src_name := "out.json"; src_bytes := EmptyString |}.

End Demo.

(** A runtime whose encoder constructor accepts no keyword at all and
    refuses any with [TypeError], the way [JSONEncoder.__init__] refuses a
    keyword it does not know. *)
Definition strict_runtime : Runtime :=
  {| PY2 := false;
     json_load := Demo.load;
     JSONEncoder := λ _ kwargs,
       if decide (size kwargs = 0) then Ok Demo.chunks else Err TypeError |}.

(** A runtime whose parser also reads the one-number document [5]. *)
Definition number_runtime : Runtime :=
  {| PY2 := false;
     json_load := λ text args kwargs,
       if String.eqb text "5" then Ok (VInt 5) else Demo.load text args kwargs;
     JSONEncoder := λ _ _, Ok Demo.chunks |}.

(** ** Shapes of tables *)


(** * Properties *)

(** ** Processes *)

Lemma unwind_emits evs k : unwind (emits evs k) = evs ++ unwind k.
Proof. induction evs as [|ev evs IH]; simpl; [done|by rewrite IH]. Qed.

Lemma yield_free_emits evs k : yield_free (emits evs k) = yield_free k.
Proof. by induction evs. Qed.

Lemma well_formed_emits evs k : well_formed (emits evs k) = well_formed k.
Proof. by induction evs. Qed.

Lemma yield_free_try_finally p fin :
  yield_free (try_finally p fin) = yield_free p.
Proof. induction p; simpl; rewrite ?yield_free_emits; auto. Qed.

Lemma well_formed_try_finally p fin :
  well_formed (try_finally p fin) = well_formed p.
Proof.
  induction p as [| |ev k IH|r k IH abort _]; simpl;
    rewrite ?well_formed_emits, ?yield_free_try_finally, ?IH; done.
Qed.

Lemma unwind_try_finally p fin :
  yield_free p = true → unwind (try_finally p fin) = unwind p ++ fin.
Proof.
  induction p as [| |ev k IH|]; simpl; intros Hp;
    rewrite ?unwind_emits, ?app_nil_r; try done.
  by rewrite IH.
Qed.

Lemma advance_emits more evs k :
  advance more (emits evs k) =
  let '(t, rs, o) := advance more k in (evs ++ t, rs, o).
Proof.
  induction evs as [|ev evs IH]; simpl.
  - by destruct (advance more k) as [[??]?].
  - rewrite IH. by destruct (advance more k) as [[??]?].
Qed.

(** Whatever the consumer does and however the body ends, the [finally]
    events come last, once. *)
Lemma advance_try_finally more p fin :
  well_formed p = true →
  advance more (try_finally p fin) =
  let '(t, rs, o) := advance more p in (t ++ fin, rs, o).
Proof.
  revert more.
  induction p as [| |ev k IH|r k IH abort _]; intros more Hp; simpl in *.
  - rewrite advance_emits. simpl. by rewrite app_nil_r.
  - rewrite advance_emits. simpl. by rewrite app_nil_r.
  - rewrite IH by done. by destruct (advance more k) as [[??]?].
  - apply andb_true_iff in Hp as [Hk Hab]. destruct more as [|more].
    + by rewrite unwind_try_finally.
    + rewrite IH by done. by destruct (advance more k) as [[??]?].
Qed.

Lemma exhaust_emits evs k :
  exhaust (emits evs k) = let '(t, rs, o) := exhaust k in (evs ++ t, rs, o).
Proof.
  induction evs as [|ev evs IH]; simpl.
  - by destruct (exhaust k) as [[??]?].
  - rewrite IH. by destruct (exhaust k) as [[??]?].
Qed.

Lemma exhaust_try_finally p fin :
  exhaust (try_finally p fin) =
  let '(t, rs, o) := exhaust p in (t ++ fin, rs, o).
Proof.
  induction p as [| |ev k IH|r k IH abort _]; simpl.
  - rewrite exhaust_emits. simpl. by rewrite app_nil_r.
  - rewrite exhaust_emits. simpl. by rewrite app_nil_r.
  - rewrite IH. by destruct (exhaust k) as [[??]?].
  - rewrite IH. by destruct (exhaust k) as [[??]?].
Qed.

Lemma well_formed_yield_rows hdr records :
  well_formed (yield_rows hdr records) = true.
Proof.
  induction records as [|o records IH]; simpl; [done|].
  destruct (project o hdr); simpl; [by rewrite IH|done].
Qed.

(** Producing rows touches no resource. *)
Lemma advance_yield_rows_trace more hdr records :
  (advance more (yield_rows hdr records)).1.1 = [].
Proof.
  revert more. induction records as [|o records IH]; intros more; simpl; [done|].
  destruct (project o hdr); simpl; [|done].
  destruct more as [|more]; simpl; [done|].
  specialize (IH more). by destruct (advance more (yield_rows hdr records)) as [[??]?].
Qed.

Lemma well_formed_yield_rows_any hdr records :
  well_formed (yield_rows_any hdr records) = true.
Proof.
  induction records as [|o records IH]; simpl; [done|].
  destruct (project_any o hdr); simpl; [by rewrite IH|done].
Qed.

Lemma advance_yield_rows_any_trace more hdr records :
  (advance more (yield_rows_any hdr records)).1.1 = [].
Proof.
  revert more. induction records as [|o records IH]; intros more; simpl; [done|].
  destruct (project_any o hdr); simpl; [|done].
  destruct more as [|more]; simpl; [done|].
  specialize (IH more).
  by destruct (advance more (yield_rows_any hdr records)) as [[??]?].
Qed.

Lemma exhaust_yield_rows_any_trace hdr records :
  (exhaust (yield_rows_any hdr records)).1.1 = [].
Proof.
  induction records as [|o records IH]; simpl; [done|].
  destruct (project_any o hdr); simpl; [|done].
  by destruct (exhaust (yield_rows_any hdr records)) as [[??]?].
Qed.

(** On fields that are text the general lookup is the lookup by name. *)
Lemma py_eq_text f e :
  py_eq (VStr f) e = match e with VStr s => String.eqb s f | _ => false end.
Proof. destruct e; simpl; try done. apply String.eqb_sym. Qed.

Lemma py_contains_any_text o f : py_contains_any o (VStr f) = py_contains o f.
Proof.
  destruct o as [| | | | |l|]; try done.
  cbn [py_contains_any py_contains]. f_equal.
  induction l as [|e l IH]; [done|].
  cbn [existsb]. by rewrite py_eq_text, IH.
Qed.

Lemma py_getitem_any_text o f : py_getitem_any o (VStr f) = py_getitem o f.
Proof. by destruct o. Qed.

Lemma project_any_text o fs : project_any o (VStr <$> fs) = project o fs.
Proof.
  induction fs as [|f fs IH]; [done|].
  rewrite fmap_cons. cbn [project_any project].
  by rewrite py_contains_any_text, py_getitem_any_text, IH.
Qed.

Lemma yield_rows_any_text fs records :
  yield_rows_any (VStr <$> fs) records = yield_rows fs records.
Proof.
  induction records as [|o records IH]; [done|].
  cbn [yield_rows_any yield_rows]. by rewrite project_any_text, IH.
Qed.

Lemma text_fields_names fs : text_fields (VStr <$> fs) = Some fs.
Proof.
  unfold text_fields. induction fs as [|f fs IH]; [done|].
  rewrite fmap_cons. simpl. simpl in IH. by rewrite IH.
Qed.

Lemma text_fields_Some vs fs : text_fields vs = Some fs → vs = VStr <$> fs.
Proof.
  unfold text_fields. revert fs.
  induction vs as [|v vs IH]; intros fs; simpl.
  - by intros [= <-].
  - destruct v; simpl; try done.
    destruct (mapM _ vs) as [fs'|]; simpl; [|done].
    intros [= <-]. by rewrite (IH fs').
Qed.

Lemma chosen_header_fields r records fs :
  header_arg r = ObjFields fs → chosen_header r records = Ok fs.
Proof.
  intros Hfs. unfold chosen_header. rewrite Hfs.
  cbn [is_None header_values mbind result_bind].
  by rewrite text_fields_names.
Qed.

Lemma string_app_assoc s1 s2 s3 : (s1 +:+ s2) +:+ s3 = s1 +:+ (s2 +:+ s3).
Proof.
  induction s1 as [|a s1 IH]; [done|].
  change (String a ((s1 +:+ s2) +:+ s3) = String a (s1 +:+ (s2 +:+ s3))).
  by rewrite IH.
Qed.

Lemma string_app_nil_r s : s +:+ EmptyString = s.
Proof.
  induction s as [|a s IH]; [done|].
  change (String a (s +:+ EmptyString) = String a s). by rewrite IH.
Qed.

Lemma written_app t1 t2 : written (t1 ++ t2) = written t1 +:+ written t2.
Proof.
  induction t1 as [|ev t1 IH]; simpl; [done|].
  destruct ev; simpl; try done. rewrite IH.
  by rewrite string_app_assoc.
Qed.

Lemma written_writes texts : written (EvWrite <$> texts) = concat_text texts.
Proof. induction texts as [|s texts IH]; csimpl; [done|by rewrite IH]. Qed.

Lemma concat_text_app l1 l2 :
  concat_text (l1 ++ l2) = concat_text l1 +:+ concat_text l2.
Proof.
  induction l1 as [|s l1 IH]; simpl; [done|].
  rewrite IH. by rewrite string_app_assoc.
Qed.

(** ** Header derivation *)

Lemma elem_of_key_set d f : f ∈ key_set d ↔ f ∈ d.*1.
Proof. unfold key_set. by rewrite elem_of_list_to_set. Qed.

Lemma elem_of_collect_from (acc : gset string) records f :
  f ∈ foldl (λ hdr o, if has_keys o then hdr ∪ keys_of o else hdr) acc records
  ↔ f ∈ acc ∨ ∃ d, VDict d ∈ records ∧ f ∈ d.*1.
Proof.
  revert acc. induction records as [|o records IH]; intros acc; simpl.
  - split; [auto|]. intros [?|(d & Hd & _)]; [done|]. by apply elem_of_nil in Hd.
  - rewrite IH. split.
    + intros [Hacc|(d & Hd & Hf)].
      * destruct o; simpl in Hacc; auto.
        apply elem_of_union in Hacc as [?|Hk]; [auto|].
        right. eexists. split; [apply list_elem_of_here|].
        by apply elem_of_key_set.
      * right. exists d. split; [by apply list_elem_of_further|done].
    + intros [Hacc|(d & Hd & Hf)].
      * left. destruct (has_keys o); [apply elem_of_union|]; auto.
      * apply elem_of_cons in Hd as [<-|Hd].
        -- left. simpl. apply elem_of_union. right. by apply elem_of_key_set.
        -- right. eauto.
Qed.

(** The collected set holds exactly the keys of the mapping records. *)
Lemma elem_of_collect_keys records f :
  f ∈ collect_keys records ↔ ∃ d, VDict d ∈ records ∧ f ∈ d.*1.
Proof.
  unfold collect_keys. rewrite elem_of_collect_from.
  split; [intros [H|H]; [by apply not_elem_of_empty in H|done]|auto].
Qed.

Lemma sorted_Permutation s : sorted s ≡ₚ elements s.
Proof. apply merge_sort_Permutation. Qed.

Lemma elem_of_sorted s f : f ∈ sorted s ↔ f ∈ s.
Proof. by rewrite sorted_Permutation, elem_of_elements. Qed.

Lemma NoDup_sorted s : NoDup (sorted s).
Proof. rewrite sorted_Permutation. apply NoDup_elements. Qed.

Lemma StronglySorted_sorted s : StronglySorted String.le (sorted s).
Proof. apply (StronglySorted_merge_sort _). Qed.

Lemma derive_header_nil : derive_header [] = [].
Proof. unfold derive_header, collect_keys. simpl. unfold sorted. by rewrite elements_empty. Qed.

(** ** The view [fromjson] builds *)

Lemma fromjson_unfold src args kwargs σ :
  fromjson src args kwargs σ =
  ({| jv_source := src; jv_args := args; jv_kwargs := fresh (dom σ);
      jv_missing := configured_missing kwargs;
      jv_header := default (ObjValue VNone) (kwargs !! "header") |},
   <[fresh (dom σ) := parser_kwargs kwargs]> σ).
Proof.
  unfold fromjson, alloc, JsonView_init, dict_pop, configured_missing.
  rewrite lookup_insert_eq. rewrite lookup_insert_eq.
  rewrite !insert_insert_eq. by rewrite lookup_delete_ne.
Qed.

Section ReaderFacts.
Context `{Runtime}.

Lemma well_formed_JsonView_body self σ :
  well_formed (JsonView_body self σ) = true.
Proof.
  unfold JsonView_body. simpl.
  destruct (json_load _ _ _) as [parsed|]; [|done].
  destruct (if is_None _ then _ else _) as [hdr|]; [|done]. simpl.
  destruct (py_iter parsed); [|done].
  by rewrite well_formed_yield_rows_any.
Qed.

(** The body performs one event, the parse, whatever happens after it. *)
Lemma advance_JsonView_body_trace more self σ :
  (advance more (JsonView_body self σ)).1.1 =
  [EvLoad (jv_args self) (default ∅ (σ !! jv_kwargs self))].
Proof.
  unfold JsonView_body. simpl.
  destruct (json_load _ _ _) as [parsed|]; [|done].
  destruct (if is_None _ then _ else _) as [hdr|]; [|done]. simpl.
  destruct more as [|more]; [done|].
  destruct (py_iter parsed) as [records|]; [|done].
  pose proof (advance_yield_rows_any_trace more hdr records) as Ht.
  destruct (advance more (yield_rows_any hdr records)) as [[t rs] o].
  simpl in *. by subst.
Qed.

Lemma advance_JsonView_iter more self σ :
  advance more (JsonView_iter self σ) =
  (scoped PY2 "rb" [EvLoad (jv_args self) (default ∅ (σ !! jv_kwargs self))],
   (advance more (JsonView_body self σ)).1.2,
   (advance more (JsonView_body self σ)).2).
Proof.
  pose proof (advance_JsonView_body_trace more self σ) as Ht.
  pose proof (well_formed_JsonView_body self σ) as Hwf.
  unfold JsonView_iter, with_open, scoped.
  generalize dependent (JsonView_body self σ). intros body Ht Hwf.
  destruct PY2.
  - cbn [advance].
    rewrite advance_try_finally by by rewrite well_formed_try_finally.
    rewrite advance_try_finally by done.
    destruct (advance more body) as [[t rs] o].
    simpl in *. subst. by rewrite app_nil_r.
  - cbn [advance try_finally].
    rewrite advance_try_finally by by rewrite well_formed_try_finally.
    rewrite advance_try_finally by done.
    destruct (advance more body) as [[t rs] o].
    simpl in *. subst. done.
Qed.

Lemma exhaust_JsonView_iter self σ :
  exhaust (JsonView_iter self σ) =
  let '(t, rs, o) := exhaust (JsonView_body self σ) in
  (scoped PY2 "rb" t, rs, o).
Proof.
  unfold JsonView_iter, with_open, scoped.
  generalize (JsonView_body self σ). intros body.
  destruct PY2; cbn [exhaust try_finally]; rewrite !exhaust_try_finally;
    destruct (exhaust body) as [[t rs] o]; simpl;
    by rewrite ?app_nil_r, <- ?app_assoc.
Qed.

Lemma exhaust_yield_rows_trace hdr records :
  (exhaust (yield_rows hdr records)).1.1 = [].
Proof.
  induction records as [|o records IH]; simpl; [done|].
  destruct (project o hdr); simpl; [|done].
  by destruct (exhaust (yield_rows hdr records)) as [[??]?].
Qed.

(** The view [fromjson] returns reads its keywords from the store. *)
Lemma reader_iter_json src args kwargs :
  reader_iter (FromJson src args kwargs) =
  JsonView_iter
    {| jv_source := src; jv_args := args; jv_kwargs := fresh (dom (∅ : store));
       jv_missing := configured_missing kwargs;
       jv_header := default (ObjValue VNone) (kwargs !! "header") |}
    (<[fresh (dom (∅ : store)) := parser_kwargs kwargs]> ∅).
Proof. unfold reader_iter. by rewrite fromjson_unfold. Qed.

(** What either reader does once the records and the header are known:
    the header row first, then one row per record. *)
Lemma reader_body r records hdr :
  records_read r = Ok records →
  chosen_header r records = Ok hdr →
  (∀ more,
     advance more (reader_iter r) =
     (reader_trace r,
      (advance more (Yield (VStr <$> hdr) (yield_rows hdr records) Stop)).1.2,
      (advance more (Yield (VStr <$> hdr) (yield_rows hdr records) Stop)).2))
  ∧ exhaust (reader_iter r) =
    (reader_trace r,
     (VStr <$> hdr) :: (exhaust (yield_rows hdr records)).1.2,
     (exhaust (yield_rows hdr records)).2).
Proof.
  intros Hrec Hhdr. destruct r as [ds h|src args kwargs].
  - simpl in Hrec. injection Hrec as ->.
    assert (match h with None => derive_header records | Some h => h end = hdr)
      as Hh.
    { unfold chosen_header in Hhdr. destruct h as [fs|].
      - cbn [header_arg is_None header_values mbind result_bind] in Hhdr.
        rewrite text_fields_names in Hhdr. congruence.
      - simpl in Hhdr. congruence. }
    unfold reader_iter, DictsView_iter, fromdicts. simpl. rewrite Hh. split.
    + intros [|more]; simpl; [done|].
      pose proof (advance_yield_rows_trace more hdr records) as Ht.
      destruct (advance more (yield_rows hdr records)) as [[t rs] o].
      simpl in *. by subst.
    + pose proof (exhaust_yield_rows_trace hdr records) as Ht.
      destruct (exhaust (yield_rows hdr records)) as [[t rs] o].
      simpl in *. by subst.
  - rewrite reader_iter_json.
    set (view := {| jv_source := src |}).
    set (σ := <[_ := _]> _).
    assert (JsonView_body view σ =
            Emit (EvLoad args (parser_kwargs kwargs))
              (Yield (VStr <$> hdr) (yield_rows hdr records) Stop)) as Hbody.
    { unfold JsonView_body, view, σ. simpl. rewrite lookup_insert_eq. simpl.
      simpl in Hrec. unfold chosen_header in Hhdr. simpl in Hhdr.
      destruct (json_load _ _ _) as [parsed|]; [|done]. simpl in Hrec.
      rewrite Hrec. simpl.
      destruct (is_None _).
      - injection Hhdr as <-. by rewrite yield_rows_any_text.
      - destruct (header_values _) as [vs|]; [|done]. simpl in Hhdr.
        destruct (text_fields vs) as [fs|] eqn:Hfs; [|done].
        injection Hhdr as ->. apply text_fields_Some in Hfs as ->.
        by rewrite yield_rows_any_text. }
    split.
    + intros more. rewrite advance_JsonView_iter, Hbody.
      unfold view, σ. simpl. rewrite lookup_insert_eq. simpl.
      destruct more as [|more]; simpl; [done|].
      by destruct (advance more (yield_rows hdr records)) as [[t rs] o].
    + rewrite exhaust_JsonView_iter, Hbody. simpl.
      pose proof (exhaust_yield_rows_trace hdr records) as Ht.
      destruct (exhaust (yield_rows hdr records)) as [[t rs] o].
      simpl in *. by subst.
Qed.

(** A parse error ends the read at once and is what the caller sees. *)
Lemma reader_parse_error src args kwargs e more :
  json_load (src_bytes src) args (parser_kwargs kwargs) = Err e →
  advance more (reader_iter (FromJson src args kwargs)) =
  (reader_trace (FromJson src args kwargs), [], Raised e).
Proof.
  intros Hload. rewrite reader_iter_json, advance_JsonView_iter.
  unfold JsonView_body. simpl. rewrite lookup_insert_eq. simpl.
  by rewrite Hload.
Qed.

End ReaderFacts.

(** ** Writing *)

Lemma exhaust_write_opt text k :
  exhaust (write_opt text k) =
  let '(t, rs, o) := exhaust k in ((EvWrite <$> opt_text text) ++ t, rs, o).
Proof. destruct text; simpl; by destruct (exhaust k) as [[??]?]. Qed.

Lemma exhaust_writeobj enc obj prefix suffix :
  exhaust (_writeobj enc obj prefix suffix) =
  (EvWrite <$> pieces enc obj prefix suffix, [], write_outcome enc obj).
Proof.
  unfold _writeobj, pieces, write_outcome.
  rewrite exhaust_write_opt. destruct (enc obj) as [chunks [e|]]; simpl.
  - rewrite exhaust_emits. simpl. by rewrite !fmap_app, !app_nil_r.
  - rewrite exhaust_emits, exhaust_write_opt. simpl.
    by rewrite !fmap_app, !app_nil_r.
Qed.

Section WriterFacts.
Context `{Runtime}.

(** Once the encoder is built, a write is one scoped use of the sink
    that receives the pieces in order. *)
Lemma call_writejson src obj prefix suffix args kwargs enc :
  JSONEncoder args kwargs = Ok enc →
  call (_writejson src obj prefix suffix args kwargs) =
  (scoped PY2 "wb" (EvWrite <$> pieces enc obj prefix suffix),
   write_outcome enc obj).
Proof.
  intros Henc. unfold call, _writejson, with_open, scoped. rewrite Henc.
  pose proof (exhaust_writeobj enc obj prefix suffix) as Hw.
  generalize dependent (_writeobj enc obj prefix suffix). intros body Hw.
  destruct PY2; cbn [exhaust try_finally].
  - rewrite exhaust_try_finally, Hw. done.
  - rewrite !exhaust_try_finally, Hw. simpl. by rewrite <- app_assoc.
Qed.

(** A refused encoder configuration ends the call before the sink is
    touched. *)
Lemma call_writejson_refused src obj prefix suffix args kwargs e :
  JSONEncoder args kwargs = Err e →
  call (_writejson src obj prefix suffix args kwargs) = ([], Raised e).
Proof. intros Henc. unfold call, _writejson. by rewrite Henc. Qed.

End WriterFacts.

Lemma written_scoped py2 mode texts :
  written (scoped py2 mode (EvWrite <$> texts)) = concat_text texts.
Proof.
  unfold scoped. destruct py2; simpl;
    rewrite written_app, written_writes; simpl; by rewrite string_app_nil_r.
Qed.

Lemma concat_text_pieces enc obj prefix suffix :
  (enc obj).2 = None →
  concat_text (pieces enc obj prefix suffix) =
  concat_text (opt_text prefix) +:+ concat_text (enc obj).1
    +:+ concat_text (opt_text suffix).
Proof.
  intros Hok. unfold pieces. rewrite Hok. by rewrite !concat_text_app.
Qed.

(** ** Projection of mapping records *)

(** On a mapping the projection never fails, and an absent field yields
    [None], whatever [missing] was configured. *)
Lemma project_dict d hdr :
  project (VDict d) hdr = Ok (row_of_record VNone d hdr).
Proof.
  induction hdr as [|f hdr IH]; [done|].
  cbn [project py_contains py_getitem]. unfold dict_contains.
  unfold row_of_record in *. rewrite fmap_cons.
  destruct (dict_get d f) as [v|]; simpl; by rewrite IH.
Qed.

Lemma exhaust_yield_rows_dicts hdr (ds : list dict) :
  exhaust (yield_rows hdr (VDict <$> ds)) =
  ([], (λ d, row_of_record VNone d hdr) <$> ds, Exhausted).
Proof.
  induction ds as [|d ds IH]; [done|].
  rewrite fmap_cons. cbn [yield_rows]. rewrite project_dict.
  cbn [exhaust]. by rewrite IH.
Qed.

(** * The claims *)

(** ** Header derivation (C1) *)

(** C1.  When no header is given, either reader ([fromdicts], or
    [fromjson] over the parsed array) first emits a header row that is the
    sorted union of the keys of the mapping records: it is ordered by the
    lexicographic order on text, has no repetition, and holds a field
    exactly when some mapping record of the sequence has that key.
    Entries that are not mappings contribute no key. *)
Theorem derived_header_is_sorted_union `{Runtime} r records n :
  header_arg r = ObjValue VNone →
  records_read r = Ok records →
  ∃ hdr t rest o,
    consume (S n) (reader_iter r) = (t, (VStr <$> hdr) :: rest, o)
    ∧ hdr = derive_header records
    ∧ StronglySorted String.le hdr
    ∧ NoDup hdr
    ∧ ∀ f, f ∈ hdr ↔ ∃ d, VDict d ∈ records ∧ f ∈ d.*1.
Proof.
  intros Hnone Hrec.
  assert (chosen_header r records = Ok (derive_header records)) as Hhdr.
  { unfold chosen_header. by rewrite Hnone. }
  destruct (reader_body r records _ Hrec Hhdr) as [Hadv _].
  assert (∀ f, f ∈ derive_header records ↔
               ∃ d, VDict d ∈ records ∧ f ∈ d.*1) as Hmem.
  { intros f. unfold derive_header. rewrite elem_of_sorted.
    apply elem_of_collect_keys. }
  exists (derive_header records). unfold consume. rewrite Hadv.
  destruct n as [|n]; simpl.
  - do 3 eexists. split; [reflexivity|].
    split; [done|]. split; [apply StronglySorted_sorted|].
    split; [apply NoDup_sorted|done].
  - destruct (advance n (yield_rows (derive_header records) records))
      as [[t rs] o]. simpl.
    do 3 eexists. split; [reflexivity|].
    split; [done|]. split; [apply StronglySorted_sorted|].
    split; [apply NoDup_sorted|done].
Qed.

(** A document with a number beside a mapping: the number is skipped. *)
Lemma derived_header_is_sorted_union_witness :
  ∃ hdr t rest o,
    consume 1 (@reader_iter (Demo.runtime false)
                 (FromJson (Demo.file "mixed.json" Demo.records_mixed) [] ∅))
    = (t, (VStr <$> hdr) :: rest, o)
    ∧ hdr = derive_header [VInt 7; VDict [("k", VBool true)]]
    ∧ StronglySorted String.le hdr
    ∧ NoDup hdr
    ∧ ∀ f, f ∈ hdr ↔
           ∃ d, VDict d ∈ [VInt 7; VDict [("k", VBool true)]] ∧ f ∈ d.*1.
Proof.
  apply (@derived_header_is_sorted_union (Demo.runtime false)
           (FromJson (Demo.file "mixed.json" Demo.records_mixed) [] ∅)
           [VInt 7; VDict [("k", VBool true)]] 0);
    vm_compute; reflexivity.
Defined.

(** Section 8, property 1, on [fromdicts]. *)
Example derived_header_abc :
  exhaust (DictsView_iter
             (fromdicts [VDict [("a", VInt 1); ("b", VInt 2)];
                         VDict [("b", VInt 3); ("c", VInt 4)]] None))
  = ([], [[VStr "a"; VStr "b"; VStr "c"];
          [VInt 1; VInt 2; VNone];
          [VNone; VInt 3; VInt 4]], Exhausted).
Proof. vm_compute. reflexivity. Qed.

(** ** The missing value (C2) *)

(** What the readers do on mapping records, for either kind of header:
    the chosen header first, then each record projected on it, with
    [None] at every absent field.  The configured [missing] value does
    not occur in the result. *)
Lemma rows_of_mappings `{Runtime} r (ds : list dict) hdr :
  records_read r = Ok (VDict <$> ds) →
  chosen_header r (VDict <$> ds) = Ok hdr →
  exhaust (reader_iter r) =
  (reader_trace r,
   (VStr <$> hdr) :: ((λ d, row_of_record VNone d hdr) <$> ds),
   Exhausted).
Proof.
  intros Hrec Hhdr.
  destruct (reader_body r _ _ Hrec Hhdr) as [_ ->].
  by rewrite exhaust_yield_rows_dicts.
Qed.

(** C2.  [fromjson] with [missing="NA"] over the two records of Section 8:
    the view keeps the configured value, yet the rows carry [None] where
    a field is absent; the specification's projection would put ["NA"]
    there. *)
Theorem missing_option_is_ignored :
  let kwargs : gmap string pyobj := {["missing" := ObjValue (VStr "NA")]} in
  let src := Demo.file "example.json" Demo.records_abc in
  (fromjson src [] kwargs ∅).1.(jv_missing) = ObjValue (VStr "NA")
  ∧ (exhaust (@reader_iter (Demo.runtime false) (FromJson src [] kwargs))).1.2
    = [[VStr "a"; VStr "b"; VStr "c"];
       [VInt 1; VInt 2; VNone];
       [VNone; VInt 3; VInt 4]]
  ∧ row_of_record (VStr "NA") [("a", VInt 1); ("b", VInt 2)] ["a"; "b"; "c"]
    = [VInt 1; VInt 2; VStr "NA"].
Proof. vm_compute. done. Qed.

(** ** Explicit headers (C3) *)

(** With an explicit header both readers emit it as given and project
    every mapping record on it: keys outside the header do not appear,
    fields the record lacks are [None]. *)
Lemma explicit_header_rows `{Runtime} r (ds : list dict) fs :
  header_arg r = ObjFields fs →
  records_read r = Ok (VDict <$> ds) →
  exhaust (reader_iter r) =
  (reader_trace r,
   (VStr <$> fs) :: ((λ d, row_of_record VNone d fs) <$> ds),
   Exhausted).
Proof.
  intros Hfs Hrec. apply rows_of_mappings; [done|].
  by apply chosen_header_fields.
Qed.

(** X1.  An explicit header is emitted verbatim by either reader, and
    every mapping record is projected on it: the row has one value per
    header field, the record's value for that key or [None] when the
    record lacks it; keys of the record outside the header appear
    nowhere. *)
Theorem explicit_header_is_verbatim `{Runtime} r (ds : list dict) fs :
  header_arg r = ObjFields fs →
  records_read r = Ok (VDict <$> ds) →
  exhaust (reader_iter r) =
  (reader_trace r,
   (VStr <$> fs) :: ((λ d, (λ f, default VNone (dict_get d f)) <$> fs) <$> ds),
   Exhausted).
Proof. apply explicit_header_rows. Qed.

Lemma explicit_header_is_verbatim_witness :
  exhaust (@reader_iter (Demo.runtime false)
             (FromDicts [VDict [("x", VInt 1); ("z", VInt 9)]]
                        (Some ["x"; "y"])))
  = ([], [[VStr "x"; VStr "y"]; [VInt 1; VNone]], Exhausted).
Proof.
  apply (@explicit_header_is_verbatim (Demo.runtime false)
           (FromDicts [VDict [("x", VInt 1); ("z", VInt 9)]] (Some ["x"; "y"]))
           [[("x", VInt 1); ("z", VInt 9)]] ["x"; "y"]);
    reflexivity.
Defined.

(** X2.  Shape errors (Section 7).  A record that is a number, a boolean
    or [None] is no container: as soon as the header has a field, its row
    raises [TypeError].  With an empty header every record, whatever it
    is, yields the empty row. *)
Theorem project_non_container o f fs :
  match o with
  | VNone | VBool _ | VInt _ | VFloat _ => True
  | _ => False
  end →
  project o (f :: fs) = Err TypeError ∧ project o [] = Ok [].
Proof. by destruct o. Qed.

Lemma project_non_container_witness :
  project (VInt 7) ["k"] = Err TypeError ∧ project (VInt 7) [] = Ok [].
Proof. apply (project_non_container (VInt 7) "k" []). exact I. Defined.

(** Iterating a text walks its code points, not its bytes. *)
Example utf8_chars_two_bytes :
  let e_acute :=
    String (Ascii.ascii_of_nat 195) (String (Ascii.ascii_of_nat 169) EmptyString) in
  utf8_chars ("a" +:+ e_acute +:+ "b") = ["a"; e_acute; "b"].
Proof. vm_compute. reflexivity. Qed.

(** Section 8, property 2, on [fromdicts]. *)
Example explicit_header_xy :
  exhaust (DictsView_iter
             (fromdicts [VDict [("x", VInt 1); ("z", VInt 9)]]
                        (Some ["x"; "y"])))
  = ([], [[VStr "x"; VStr "y"]; [VInt 1; VNone]], Exhausted).
Proof. vm_compute. reflexivity. Qed.

(** C3.  [fromjson] with [header=["x","y"]] and [missing="NA"] over the
    record of Section 8: the header is emitted as given and [z] is
    dropped, but the absent [y] is [None] and not the configured
    ["NA"]. *)
Theorem explicit_header_fills_with_None :
  let kwargs : gmap string pyobj :=
    {["header" := ObjFields ["x"; "y"]; "missing" := ObjValue (VStr "NA")]} in
  let src := Demo.file "example.json" Demo.records_xz in
  configured_missing kwargs = ObjValue (VStr "NA")
  ∧ (exhaust (@reader_iter (Demo.runtime false) (FromJson src [] kwargs))).1.2
    = [[VStr "x"; VStr "y"]; [VInt 1; VNone]]
  ∧ row_of_record (VStr "NA") [("x", VInt 1); ("z", VInt 9)] ["x"; "y"]
    = [VInt 1; VStr "NA"].
Proof. vm_compute. done. Qed.

(** ** Empty input (C7) *)

(** C7.  A read over an empty record sequence yields exactly one row and
    ends: the empty header when none was given, the explicit header
    otherwise. *)
Theorem empty_sequence_yields_header_only `{Runtime} r :
  records_read r = Ok [] →
  (header_arg r = ObjValue VNone →
   exhaust (reader_iter r) = (reader_trace r, [[]], Exhausted))
  ∧ (∀ fs, header_arg r = ObjFields fs →
     exhaust (reader_iter r) = (reader_trace r, [VStr <$> fs], Exhausted)).
Proof.
  intros Hrec. split.
  - intros Hnone.
    assert (chosen_header r [] = Ok []) as Hhdr.
    { unfold chosen_header. by rewrite Hnone, derive_header_nil. }
    by destruct (reader_body r _ _ Hrec Hhdr) as [_ ->].
  - intros fs Hfs.
    assert (chosen_header r [] = Ok fs) as Hhdr
      by by apply chosen_header_fields.
    by destruct (reader_body r _ _ Hrec Hhdr) as [_ ->].
Qed.

(** An empty JSON array read with an explicit header. *)
Lemma empty_sequence_yields_header_only_witness :
  let r := FromJson (Demo.file "empty.json" (VList [])) []
             {["header" := ObjFields ["x"; "y"]]} in
  exhaust (@reader_iter (Demo.runtime false) r)
  = (@reader_trace (Demo.runtime false) r, [[VStr "x"; VStr "y"]], Exhausted).
Proof.
  intros r.
  refine (proj2 (@empty_sequence_yields_header_only (Demo.runtime false) r _)
            ["x"; "y"] _);
    vm_compute; reflexivity.
Defined.

Example empty_dicts_no_header :
  exhaust (DictsView_iter (fromdicts [] None)) = ([], [[]], Exhausted).
Proof. vm_compute. reflexivity. Qed.

(** ** Writers (C4, C8, C9) *)

Lemma concat_opt_text text : concat_text (opt_text text) = opt_string text.
Proof. destruct text; simpl; [apply string_app_nil_r|done]. Qed.

Section WriterOutput.
Context `{Runtime}.

Lemma tojson_unfold t sink prefix suffix args kwargs :
  tojson t sink prefix suffix args kwargs =
  _writejson sink (objects (dicts t)) prefix suffix args kwargs.
Proof. done. Qed.

Lemma tojsonarrays_unfold t sink prefix suffix output_header args kwargs :
  tojsonarrays t sink prefix suffix output_header args kwargs =
  _writejson sink
    (arrays (if output_header then (VStr <$> header t) :: rows t else rows t))
    prefix suffix args kwargs.
Proof. unfold tojsonarrays, arrays, table_rows, data. by destruct output_header. Qed.

(** A write whose encoder runs to its end leaves the prefix, the chunks
    and the suffix in the sink, one after the other. *)
Lemma output_writejson sink obj prefix suffix args kwargs enc :
  JSONEncoder args kwargs = Ok enc →
  (enc obj).2 = None →
  output (_writejson sink obj prefix suffix args kwargs) =
  opt_string prefix +:+ concat_text (enc obj).1 +:+ opt_string suffix.
Proof.
  intros Henc Hok. unfold output.
  rewrite (call_writejson _ _ _ _ _ _ _ Henc). simpl.
  rewrite written_scoped, concat_text_pieces by done.
  by rewrite !concat_opt_text.
Qed.

End WriterOutput.

(** C4.  [tojsonarrays] writes what the encoder makes of an array of
    arrays: with [output_header] false, one array per data row, in row
    order, and nothing for the header; with [output_header] true, the
    header's fields as the first array, followed by the data rows. *)
Theorem tojsonarrays_rows `{Runtime} t sink prefix suffix args kwargs enc :
  JSONEncoder args kwargs = Ok enc →
  call (tojsonarrays t sink prefix suffix false args kwargs) =
    (scoped PY2 "wb" (EvWrite <$> pieces enc (arrays (rows t)) prefix suffix),
     write_outcome enc (arrays (rows t)))
  ∧ call (tojsonarrays t sink prefix suffix true args kwargs) =
    (scoped PY2 "wb"
       (EvWrite <$>
          pieces enc (arrays ((VStr <$> header t) :: rows t)) prefix suffix),
     write_outcome enc (arrays ((VStr <$> header t) :: rows t)))
  ∧ arrays (rows t) = VList ((λ r, VList r) <$> rows t)
  ∧ arrays ((VStr <$> header t) :: rows t) =
    VList (VList (VStr <$> header t) :: ((λ r, VList r) <$> rows t)).
Proof.
  intros Henc. rewrite !tojsonarrays_unfold.
  rewrite !(call_writejson _ _ _ _ _ _ _ Henc). done.
Qed.

(** The table of the docstring, written with and without its header. *)
Lemma tojsonarrays_rows_witness :
  call (@tojsonarrays (Demo.runtime false) Demo.foo_bar Demo.sink
          None None false [] ∅) =
    (scoped false "wb"
       (EvWrite <$> pieces Demo.chunks (arrays (rows Demo.foo_bar)) None None),
     write_outcome Demo.chunks (arrays (rows Demo.foo_bar)))
  ∧ call (@tojsonarrays (Demo.runtime false) Demo.foo_bar Demo.sink
            None None true [] ∅) =
    (scoped false "wb"
       (EvWrite <$>
          pieces Demo.chunks
            (arrays ((VStr <$> header Demo.foo_bar) :: rows Demo.foo_bar))
            None None),
     write_outcome Demo.chunks
       (arrays ((VStr <$> header Demo.foo_bar) :: rows Demo.foo_bar)))
  ∧ arrays (rows Demo.foo_bar) = VList ((λ r, VList r) <$> rows Demo.foo_bar)
  ∧ arrays ((VStr <$> header Demo.foo_bar) :: rows Demo.foo_bar) =
    VList (VList (VStr <$> header Demo.foo_bar)
             :: ((λ r, VList r) <$> rows Demo.foo_bar)).
Proof.
  apply (@tojsonarrays_rows (Demo.runtime false) Demo.foo_bar Demo.sink
           None None [] ∅ Demo.chunks).
  reflexivity.
Defined.

Example tojsonarrays_docstring :
  output (@tojsonarrays (Demo.runtime false) Demo.foo_bar Demo.sink
            None None false [] ∅)
  = Demo.text_of (VList [VList [VStr "a"; VInt 1]; VList [VStr "b"; VInt 2];
                         VList [VStr "c"; VInt 2]]).
Proof. vm_compute. reflexivity. Qed.

(** C8.  A table with no data row, written by [tojson] or by
    [tojsonarrays] with [output_header] left false, leaves in the sink
    the encoder's text for the empty array, between the prefix and the
    suffix when they are given. *)
Theorem empty_table_writes_empty_array `{Runtime}
    t sink prefix suffix args kwargs enc :
  rows t = [] →
  JSONEncoder args kwargs = Ok enc →
  enc (VList []) = (["[]"], None) →
  output (tojson t sink prefix suffix args kwargs) =
    opt_string prefix +:+ "[]" +:+ opt_string suffix
  ∧ output (tojsonarrays t sink prefix suffix false args kwargs) =
    opt_string prefix +:+ "[]" +:+ opt_string suffix.
Proof.
  intros Hrows Henc Hnil.
  rewrite tojson_unfold, tojsonarrays_unfold.
  unfold objects, arrays, dicts. rewrite Hrows. simpl.
  rewrite !(output_writejson _ _ _ _ _ _ _ Henc) by by rewrite Hnil.
  by rewrite Hnil.
Qed.

Lemma empty_table_writes_empty_array_witness :
  output (@tojson (Demo.runtime false) Demo.foo_only Demo.sink
            (Some "/*x*/") (Some "/*y*/") [] ∅) = "/*x*/[]/*y*/"
  ∧ output (@tojsonarrays (Demo.runtime false) Demo.foo_only Demo.sink
              (Some "/*x*/") (Some "/*y*/") false [] ∅) = "/*x*/[]/*y*/".
Proof.
  apply (@empty_table_writes_empty_array (Demo.runtime false) Demo.foo_only
           Demo.sink (Some "/*x*/") (Some "/*y*/") [] ∅ Demo.chunks);
    reflexivity.
Defined.

(** C9.  Whenever the encoder runs to its end, the text in the sink is
    the prefix, then exactly the encoder's chunks, then the suffix; the
    writer adds nothing of its own, and an absent prefix or suffix stands
    for the empty text. *)
Theorem output_is_prefix_chunks_suffix `{Runtime}
    t sink prefix suffix output_header args kwargs enc :
  JSONEncoder args kwargs = Ok enc →
  let obj := objects (dicts t) in
  let arr := arrays (if output_header : bool
                     then (VStr <$> header t) :: rows t else rows t) in
  ((enc obj).2 = None →
   output (tojson t sink prefix suffix args kwargs) =
   opt_string prefix +:+ concat_text (enc obj).1 +:+ opt_string suffix)
  ∧ ((enc arr).2 = None →
     output (tojsonarrays t sink prefix suffix output_header args kwargs) =
     opt_string prefix +:+ concat_text (enc arr).1 +:+ opt_string suffix)
  ∧ opt_string None = EmptyString.
Proof.
  intros Henc obj arr. rewrite tojson_unfold, tojsonarrays_unfold.
  repeat split; intros Hok; by apply output_writejson.
Qed.

(** Section 8, property 6. *)
Lemma output_is_prefix_chunks_suffix_witness :
  output (@tojson (Demo.runtime false) Demo.foo_bar Demo.sink
            (Some "/*x*/") (Some "/*y*/") [] ∅) =
  "/*x*/" +:+ Demo.text_of (objects (dicts Demo.foo_bar)) +:+ "/*y*/"
  ∧ output (@tojsonarrays (Demo.runtime false) Demo.foo_bar Demo.sink
              (Some "/*x*/") (Some "/*y*/") false [] ∅) =
    "/*x*/" +:+ Demo.text_of (arrays (rows Demo.foo_bar)) +:+ "/*y*/".
Proof.
  destruct (@output_is_prefix_chunks_suffix (Demo.runtime false) Demo.foo_bar
              Demo.sink (Some "/*x*/") (Some "/*y*/") false [] ∅ Demo.chunks
              eq_refl) as (Hobj & Harr & _).
  split; [apply Hobj|apply Harr]; vm_compute; reflexivity.
Defined.

(** An interrupted encoder leaves the prefix and the chunks produced so
    far, and no suffix. *)
Example interrupted_write_has_no_suffix :
  call (@tojson (Demo.runtime false) Demo.with_float Demo.sink
          (Some "/*x*/") (Some "/*y*/") [] ∅)
  = (scoped false "wb"
       (EvWrite <$> ["/*x*/"; "["; "{"; Demo.quote "n"; ": "; "1"; ", ";
                     Demo.quote "x"; ": "]),
     Raised ValueError).
Proof. vm_compute. reflexivity. Qed.

(** ** Resources (C6) *)

Lemma exhaust_JsonView_body_trace `{Runtime} self σ :
  (exhaust (JsonView_body self σ)).1.1 =
  [EvLoad (jv_args self) (default ∅ (σ !! jv_kwargs self))].
Proof.
  unfold JsonView_body. simpl.
  destruct (json_load _ _ _) as [parsed|]; [|done].
  destruct (if is_None _ then _ else _) as [hdr|]; [|done]. simpl.
  destruct (py_iter parsed) as [records|]; [|done].
  pose proof (exhaust_yield_rows_any_trace hdr records) as Ht.
  destruct (exhaust (yield_rows_any hdr records)) as [[t rs] o].
  simpl in *. by subst.
Qed.

(** C6.  Every started read by [fromjson] and every write by [tojson] or
    [tojsonarrays] is one scoped use of the byte resource: it is opened
    once, wrapped for text once (on Python 3), and the wrapper is
    detached and the resource closed at the end, in that order, whether
    the consumer stops early, the iteration runs to its end, or the parse
    or the encoder raises.  The exception raised by the parse or by the
    encoder is the one the caller gets. *)
Theorem resources_released_on_every_path `{Runtime} :
  (∀ src args kwargs,
     let r := FromJson src args kwargs in
     let trace := scoped PY2 "rb" [EvLoad args (parser_kwargs kwargs)] in
     (∀ n, (consume (S n) (reader_iter r)).1.1 = trace)
     ∧ (exhaust (reader_iter r)).1.1 = trace
     ∧ ∀ e, json_load (src_bytes src) args (parser_kwargs kwargs) = Err e →
            ∀ n, consume (S n) (reader_iter r) = (trace, [], Raised e))
  ∧ (∀ t sink prefix suffix output_header args kwargs enc,
       JSONEncoder args kwargs = Ok enc →
       let obj := objects (dicts t) in
       let arr := arrays (if output_header : bool
                          then (VStr <$> header t) :: rows t else rows t) in
       ∃ texts1 texts2 o1 o2,
         call (tojson t sink prefix suffix args kwargs) =
           (scoped PY2 "wb" (EvWrite <$> texts1), o1)
         ∧ call (tojsonarrays t sink prefix suffix output_header args kwargs) =
           (scoped PY2 "wb" (EvWrite <$> texts2), o2)
         ∧ (∀ e, (enc obj).2 = Some e → o1 = Raised e)
         ∧ (∀ e, (enc arr).2 = Some e → o2 = Raised e)).
Proof.
  split.
  - intros src args kwargs r trace. split; [|split].
    + intros n. unfold consume, r. rewrite reader_iter_json.
      rewrite advance_JsonView_iter. simpl. by rewrite lookup_insert_eq.
    + unfold r. rewrite reader_iter_json, exhaust_JsonView_iter.
      match goal with |- context [exhaust (JsonView_body ?v ?s)] =>
        pose proof (exhaust_JsonView_body_trace v s) as Ht;
        destruct (exhaust (JsonView_body v s)) as [[t rs] o] end.
      simpl in Ht. rewrite lookup_insert_eq in Ht. simpl in *. by subst.
    + intros e Hload n. unfold consume. by apply reader_parse_error.
  - intros t sink prefix suffix output_header args kwargs enc Henc obj arr.
    exists (pieces enc obj prefix suffix), (pieces enc arr prefix suffix),
      (write_outcome enc obj), (write_outcome enc arr).
    rewrite tojson_unfold, tojsonarrays_unfold.
    rewrite !(call_writejson _ _ _ _ _ _ _ Henc).
    repeat split; intros e He; unfold write_outcome; by rewrite He.
Qed.

(** Malformed text: the parse raises, the file is closed all the same. *)
Example malformed_read_is_released :
  consume 1 (@reader_iter (Demo.runtime false) (FromJson Demo.malformed [] ∅))
  = ([EvOpen "rb"; EvWrap; EvLoad [] ∅; EvDetach; EvClose], [],
     Raised ValueError).
Proof. vm_compute. reflexivity. Qed.

(** A consumer that stops after the header and one row. *)
Example early_close_is_released :
  consume 2 (@reader_iter (Demo.runtime false)
               (FromJson (Demo.file "example.json" Demo.records_abc) [] ∅))
  = ([EvOpen "rb"; EvWrap; EvLoad [] ∅; EvDetach; EvClose],
     [[VStr "a"; VStr "b"; VStr "c"]; [VInt 1; VInt 2; VNone]], Closed).
Proof. vm_compute. reflexivity. Qed.

(** A record that is no mapping makes the projection raise after the
    header was emitted; the file is closed all the same. *)
Example shape_error_is_released :
  exhaust (@reader_iter (Demo.runtime true)
             (FromJson (Demo.file "mixed.json" Demo.records_mixed) [] ∅))
  = ([EvOpen "rb"; EvLoad [] ∅; EvClose], [[VStr "k"]], Raised TypeError).
Proof. vm_compute. reflexivity. Qed.

(** ** Keyword arguments (C10) *)

Lemma parser_kwargs_lookup kwargs k :
  parser_kwargs kwargs !! k =
  if decide (k = "header") then None
  else if decide (k = "missing") then None else kwargs !! k.
Proof.
  unfold parser_kwargs. repeat case_decide; subst.
  - apply lookup_delete_eq.
  - rewrite lookup_delete_ne by done. apply lookup_delete_eq.
  - by rewrite !lookup_delete_ne.
Qed.

(** C10.  [fromjson] takes [missing] and [header] out of the keyword
    dictionary and keeps them in the view; the parse is called with the
    positional arguments as given and with the keyword dictionary without
    these two keys, every other keyword unchanged.  That call is the only
    use the read makes of the parser: put any other parser in its place
    that answers this one call the same way, and the iteration is the
    same process; and what the parse raises there is what the read
    raises. *)
Theorem reader_options_are_not_forwarded `{Runtime} src args kwargs σ :
  let '(view, σ') := fromjson src args kwargs σ in
  jv_missing view = default (ObjValue VNone) (kwargs !! "missing")
  ∧ jv_header view = default (ObjValue VNone) (kwargs !! "header")
  ∧ jv_args view = args
  ∧ σ' !! jv_kwargs view = Some (parser_kwargs kwargs)
  ∧ (∀ more, (advance more (JsonView_iter view σ')).1.1 =
             scoped PY2 "rb" [EvLoad args (parser_kwargs kwargs)])
  ∧ parser_kwargs kwargs !! "missing" = None
  ∧ parser_kwargs kwargs !! "header" = None
  ∧ (∀ k, k ≠ "missing" → k ≠ "header" →
          parser_kwargs kwargs !! k = kwargs !! k)
  ∧ (∀ load' : string → list pyobj → gmap string pyobj → result value,
       load' (src_bytes src) args (parser_kwargs kwargs) =
       json_load (src_bytes src) args (parser_kwargs kwargs) →
       @JsonView_iter
         {| PY2 := PY2; json_load := load'; JSONEncoder := JSONEncoder |}
         view σ' = JsonView_iter view σ')
  ∧ (∀ e more,
       json_load (src_bytes src) args (parser_kwargs kwargs) = Err e →
       advance more (JsonView_iter view σ') =
       (scoped PY2 "rb" [EvLoad args (parser_kwargs kwargs)], [], Raised e)).
Proof.
  rewrite fromjson_unfold. cbv beta iota.
  split; [done|]. split; [done|]. split; [done|].
  split; [apply lookup_insert_eq|].
  split.
  { intros more. rewrite advance_JsonView_iter. simpl.
    by rewrite lookup_insert_eq. }
  split; [by rewrite parser_kwargs_lookup|].
  split; [by rewrite parser_kwargs_lookup|].
  split.
  { intros k Hm Hh. rewrite parser_kwargs_lookup. by repeat case_decide. }
  split.
  - intros load' Hsame. unfold JsonView_iter, JsonView_body. simpl.
    rewrite lookup_insert_eq. simpl. by rewrite Hsame.
  - intros e more Hload. rewrite advance_JsonView_iter.
    unfold JsonView_body. simpl. rewrite lookup_insert_eq. simpl.
    by rewrite Hload.
Qed.

(** Two parsers that differ everywhere but at the call [fromjson] makes:
    the read cannot tell them apart.  The second one would raise if it
    were handed [header] or [missing], or nothing at all. *)
Example only_that_call_matters :
  let kwargs : gmap string pyobj :=
    {["header" := ObjFields ["x"]; "missing" := ObjValue (VInt 0);
      "object_hook" := ObjOpaque "hook"]} in
  let picky text (args : list pyobj) (kw : gmap string pyobj) :=
    if decide (size kw = 1) then Demo.load text args kw
    else Err ValueError in
  let src := Demo.file "example.json" Demo.records_xz in
  @reader_iter {| PY2 := false; json_load := picky;
                  JSONEncoder := λ _ _, Ok Demo.chunks |}
    (FromJson src [ObjOpaque "cls"] kwargs)
  = @reader_iter (Demo.runtime false) (FromJson src [ObjOpaque "cls"] kwargs).
Proof. vm_compute. reflexivity. Qed.

Example parser_gets_the_other_keywords :
  consume 1 (@reader_iter (Demo.runtime false)
               (FromJson (Demo.file "example.json" Demo.records_xz)
                  [ObjOpaque "cls"]
                  {["header" := ObjFields ["x"]; "missing" := ObjValue (VInt 0);
                    "object_hook" := ObjOpaque "hook"]}))
  = ([EvOpen "rb"; EvWrap;
      EvLoad [ObjOpaque "cls"] {["object_hook" := ObjOpaque "hook"]};
      EvDetach; EvClose],
     [[VStr "x"]], Closed).
Proof. vm_compute. reflexivity. Qed.

(** ** Round trip (C5) *)









(** Why the field names have to be distinct: a header that repeats a
    name maps both positions to one key, and the later value wins. *)
Example repeated_field_name_is_not_restored :
  let text := output (@tojson (Demo.runtime false) Demo.dup_header Demo.sink
                        None None [] ∅) in
  rows Demo.dup_header = [[VInt 1; VInt 2]]
  ∧ (exhaust (@reader_iter (Demo.runtime false)
                (FromJson {| src_name := "out.json"; src_bytes := text |} []
                   {["header" := ObjFields ["k"; "k"]]}))).1.2
    = [[VStr "k"; VStr "k"]; [VInt 2; VInt 2]].
Proof. vm_compute. done. Qed.

(** * Further properties of the code *)

(** ** Rows *)


(** The guarded lookup [o[f] if f in o else None] never raises
    [KeyError]: a projection that fails fails with [TypeError]. *)
Lemma project_error o hdr e : project o hdr = Err e → e = TypeError.
Proof.
  induction hdr as [|f hdr IH]; [done|].
  destruct o as [| | | |s|l|d]; try (simpl; by intros [= <-]).
  - simpl. destruct (is_substring f s); simpl; [by intros [= <-]|].
    destruct (project (VStr s) hdr); simpl; [done|]. intros [= <-]. by apply IH.
  - simpl. destruct (existsb _ l); simpl; [by intros [= <-]|].
    destruct (project (VList l) hdr); simpl; [done|]. intros [= <-]. by apply IH.
  - intros Hp. by rewrite project_dict in Hp.
Qed.



Lemma exhaust_yield_rows_outcome hdr records :
  (exhaust (yield_rows hdr records)).2 = Exhausted
  ∨ (exhaust (yield_rows hdr records)).2 = Raised TypeError.
Proof.
  induction records as [|o records IH]; simpl; [by left|].
  destruct (project o hdr) as [r|e] eqn:Hr; simpl.
  - by destruct (exhaust (yield_rows hdr records)) as [[t rs] o'].
  - right. by rewrite (project_error _ _ _ Hr).
Qed.

Lemma py_iter_error v e : py_iter v = Err e → e = TypeError.
Proof. destruct v; simpl; congruence. Qed.

Lemma header_values_error h e : header_values h = Err e → e = TypeError.
Proof. destruct h; simpl; [apply py_iter_error|done|congruence]. Qed.

Lemma py_index_error {A} (l : list A) i e :
  py_index l i = Err e → e = IndexError.
Proof.
  unfold py_index. destruct (_ <? 0)%Z; [congruence|].
  destruct (l !! _); congruence.
Qed.


(** One guarded lookup [o[f] if f in o else None]: it never raises
    [KeyError]. *)
Lemma guarded_lookup_error o f c e :
  py_contains_any o f = Ok c →
  (if c then py_getitem_any o f else Ok VNone) = Err e →
  e = TypeError ∨ e = IndexError.
Proof.
  destruct c; [|done]. destruct o as [| | | |s|l|d]; simpl; try done.
  - destruct f; try done. intros _ [= <-]. by left.
  - intros _. destruct (index_of f); [|intros [= <-]; by left].
    intros He. right. by eapply py_index_error.
  - destruct (hashable f); [|done]. destruct f; simpl; try (by intros [= <-]).
    unfold dict_contains. by destruct (dict_get d s).
Qed.

Lemma py_contains_any_error o f e :
  py_contains_any o f = Err e → e = TypeError.
Proof.
  destruct o; simpl; try congruence.
  - destruct f; congruence.
  - destruct (hashable f); congruence.
Qed.

Lemma project_any_error o hdr e :
  project_any o hdr = Err e → e = TypeError ∨ e = IndexError.
Proof.
  induction hdr as [|f hdr IH]; [done|]. simpl.
  destruct (py_contains_any o f) as [c|e'] eqn:Hc; simpl.
  - destruct (if c then py_getitem_any o f else Ok VNone) as [v|e'] eqn:Hv;
      simpl.
    + destruct (project_any o hdr); simpl; [done|].
      intros [= <-]. by apply IH.
    + intros [= <-]. by eapply guarded_lookup_error.
  - intros [= <-]. left. by eapply py_contains_any_error.
Qed.



Lemma exhaust_yield_rows_any_outcome hdr records :
  (exhaust (yield_rows_any hdr records)).2 = Exhausted
  ∨ (exhaust (yield_rows_any hdr records)).2 = Raised TypeError
  ∨ (exhaust (yield_rows_any hdr records)).2 = Raised IndexError.
Proof.
  induction records as [|o records IH]; simpl; [by left|].
  destruct (project_any o hdr) as [r|e] eqn:Hr; simpl.
  - by destruct (exhaust (yield_rows_any hdr records)) as [[t rs] o'].
  - right. destruct (project_any_error _ _ _ Hr) as [-> | ->]; auto.
Qed.

Lemma exhaust_yield_rows_any_text_outcome fs records :
  (exhaust (yield_rows_any (VStr <$> fs) records)).2 = Exhausted
  ∨ (exhaust (yield_rows_any (VStr <$> fs) records)).2 = Raised TypeError.
Proof. rewrite yield_rows_any_text. apply exhaust_yield_rows_outcome. Qed.

Section Shapes.
Context `{Runtime}.


Lemma exhaust_JsonView_iter_rows self σ :
  (exhaust (JsonView_iter self σ)).1.2 = (exhaust (JsonView_body self σ)).1.2
  ∧ (exhaust (JsonView_iter self σ)).2 = (exhaust (JsonView_body self σ)).2.
Proof.
  rewrite exhaust_JsonView_iter.
  by destruct (exhaust (JsonView_body self σ)) as [[t rs] o].
Qed.


(** X10.  A full read ends normally or with an exception.  [fromdicts]
    raises nothing but [TypeError] (a record of the wrong shape).
    [fromjson] raises [TypeError] (a record, the document or the header
    of the wrong shape), whatever the parse raised, or [IndexError], and
    that one only when the header was given as a list: a field that is
    an integer and an element of a list record is used as an index into
    it.  No [KeyError] escapes the guarded lookup. *)
Theorem reader_exceptions r :
  match (exhaust (reader_iter r)).2 with
  | Exhausted => True
  | Closed => False
  | Raised e =>
      e = TypeError
      ∨ match r with
        | FromJson src args kwargs =>
            json_load (src_bytes src) args (parser_kwargs kwargs) = Err e
            ∨ (e = IndexError
               ∧ ∃ l, kwargs !! "header" = Some (ObjValue (VList l)))
        | FromDicts _ _ => False
        end
  end.
Proof.
  destruct r as [ds h|src args kwargs].
  - unfold reader_iter, DictsView_iter, fromdicts. simpl.
    set (hdr := match h with None => derive_header ds | Some h => h end).
    pose proof (exhaust_yield_rows_outcome hdr ds) as Ho.
    destruct (exhaust (yield_rows hdr ds)) as [[t rs] o]. simpl in *.
    destruct Ho as [-> | ->]; auto.
  - rewrite reader_iter_json.
    rewrite (proj2 (exhaust_JsonView_iter_rows _ _)).
    unfold JsonView_body. simpl. rewrite lookup_insert_eq. simpl.
    destruct (json_load _ _ _) as [parsed|e]; simpl; [|by right; left].
    assert (∀ fs records,
              match (exhaust (Yield (VStr <$> fs)
                                (yield_rows_any (VStr <$> fs) records)
                                Stop)).2 with
              | Exhausted => True
              | Closed => False
              | Raised e => e = TypeError
              end) as Htext.
    { intros fs records. simpl.
      pose proof (exhaust_yield_rows_any_text_outcome fs records) as Ho.
      destruct (exhaust (yield_rows_any (VStr <$> fs) records))
        as [[t rs] o]. simpl in *. by destruct Ho as [-> | ->]. }
    destruct (kwargs !! "header") as [[v|fs|name]|] eqn:Hk; simpl.
    + destruct v as [| | | |s|l|d]; simpl;
        try (destruct (py_iter parsed) as [records|e] eqn:Hi; simpl;
             [|left; by eapply py_iter_error]);
        try (by left).
      * specialize (Htext (derive_header records) records). simpl in Htext.
        destruct (exhaust (yield_rows_any _ records)) as [[t rs] [|e|]];
          simpl in *; auto.
      * specialize (Htext (utf8_chars s) records). simpl in Htext.
        destruct (exhaust (yield_rows_any _ records)) as [[t rs] [|e|]];
          simpl in *; auto.
      * pose proof (exhaust_yield_rows_any_outcome l records) as Ho.
        destruct (exhaust (yield_rows_any l records)) as [[t rs] o].
        simpl in *. destruct Ho as [-> | [-> | ->]]; eauto 6.
      * specialize (Htext d.*1 records). simpl in Htext.
        destruct (exhaust (yield_rows_any _ records)) as [[t rs] [|e|]];
          simpl in *; auto.
    + destruct (py_iter parsed) as [records|e] eqn:Hi; simpl;
        [|left; by eapply py_iter_error].
      specialize (Htext fs records). simpl in Htext.
      destruct (exhaust (yield_rows_any _ records)) as [[t rs] [|e|]];
        simpl in *; auto.
    + by left.
    + destruct (py_iter parsed) as [records|e] eqn:Hi; simpl;
        [|left; by eapply py_iter_error].
      specialize (Htext (derive_header records) records). simpl in Htext.
      destruct (exhaust (yield_rows_any _ records)) as [[t rs] [|e|]];
        simpl in *; auto.
Qed.

End Shapes.

(** ** The two readers agree *)

Lemma chosen_header_dicts ds h :
  chosen_header (FromDicts ds h) ds =
  Ok (match h with None => derive_header ds | Some fs => fs end).
Proof. destruct h; [by apply chosen_header_fields|done]. Qed.

(** X4.  [fromjson] is [fromdicts] after the parse: when the document
    parses to an array, reading it with [fromjson] emits the same rows
    and ends the same way as [fromdicts] on the elements of the array
    with the same header argument, for every consumer. *)
Theorem fromjson_is_fromdicts_after_parse `{Runtime}
    src args kwargs records h n :
  json_load (src_bytes src) args (parser_kwargs kwargs) = Ok (VList records) →
  kwargs !! "header" = ObjFields <$> h →
  let json := reader_iter (FromJson src args kwargs) in
  let dicts := DictsView_iter (fromdicts records h) in
  (consume n json).1.2 = (consume n dicts).1.2
  ∧ (consume n json).2 = (consume n dicts).2
  ∧ (exhaust json).1.2 = (exhaust dicts).1.2
  ∧ (exhaust json).2 = (exhaust dicts).2.
Proof.
  intros Hload Hh json dicts.
  set (hdr := match h with None => derive_header records | Some fs => fs end).
  assert (records_read (FromJson src args kwargs) = Ok records) as Hrec1.
  { simpl. by rewrite Hload. }
  assert (chosen_header (FromJson src args kwargs) records = Ok hdr) as Hhdr1.
  { destruct h as [fs|].
    - apply chosen_header_fields. simpl. by rewrite Hh.
    - unfold chosen_header. simpl. by rewrite Hh. }
  destruct (reader_body _ _ _ Hrec1 Hhdr1) as [Hadv1 Hex1].
  destruct (reader_body (FromDicts records h) records hdr eq_refl
              (chosen_header_dicts records h)) as [Hadv2 Hex2].
  change (DictsView_iter (fromdicts records h))
    with (reader_iter (FromDicts records h)) in dicts.
  unfold json, dicts. rewrite Hex1, Hex2.
  destruct n as [|more]; [done|]. unfold consume.
  by rewrite Hadv1, Hadv2.
Qed.

Lemma fromjson_is_fromdicts_after_parse_witness :
  let json := @reader_iter (Demo.runtime false)
                (FromJson (Demo.file "mixed.json" Demo.records_mixed) [] ∅) in
  let dicts := DictsView_iter
                 (fromdicts [VInt 7; VDict [("k", VBool true)]] None) in
  (consume 2 json).1.2 = (consume 2 dicts).1.2
  ∧ (consume 2 json).2 = (consume 2 dicts).2
  ∧ (exhaust json).1.2 = (exhaust dicts).1.2
  ∧ (exhaust json).2 = (exhaust dicts).2.
Proof.
  apply (@fromjson_is_fromdicts_after_parse (Demo.runtime false)
           (Demo.file "mixed.json" Demo.records_mixed) [] ∅
           [VInt 7; VDict [("k", VBool true)]] None 2);
    vm_compute; reflexivity.
Defined.

(** ** When shape errors surface *)

Section ShapeErrors.
Context `{Runtime}.

(** X5.  With an explicit header a document that parsed is answered with
    the header row first, whatever the parsed value is; a value that
    cannot be iterated (a number, a boolean, null) raises [TypeError] only
    when the consumer asks for the first data row.  With no header the
    same value raises [TypeError] before any row is emitted, because the
    header is derived by iterating it. *)
Theorem shape_error_after_explicit_header src args kwargs parsed :
  json_load (src_bytes src) args (parser_kwargs kwargs) = Ok parsed →
  py_iter parsed = Err TypeError →
  let r := FromJson src args kwargs in
  (∀ fs, kwargs !! "header" = Some (ObjFields fs) →
     consume 1 (reader_iter r) = (reader_trace r, [VStr <$> fs], Closed)
     ∧ ∀ n, consume (S (S n)) (reader_iter r) =
            (reader_trace r, [VStr <$> fs], Raised TypeError))
  ∧ (kwargs !! "header" = None →
     ∀ n, consume (S n) (reader_iter r) =
          (reader_trace r, [], Raised TypeError)).
Proof.
  intros Hload Hiter r. split.
  - intros fs Hfs. unfold r, consume. rewrite reader_iter_json.
    split; [|intros n]; rewrite advance_JsonView_iter;
      unfold JsonView_body; simpl; rewrite lookup_insert_eq; simpl;
      rewrite Hload, Hfs; simpl; by rewrite ?Hiter.
  - intros Hnone n. unfold r, consume. rewrite reader_iter_json.
    rewrite advance_JsonView_iter.
    unfold JsonView_body. simpl. rewrite lookup_insert_eq. simpl.
    rewrite Hload, Hnone. simpl. by rewrite Hiter.
Qed.

End ShapeErrors.

(** The document [5] read with [header=["x"]]. *)
Lemma shape_error_after_explicit_header_witness :
  let r := FromJson {| src_name := "five.json"; src_bytes := "5" |} []
             {["header" := ObjFields ["x"]]} in
  consume 1 (@reader_iter number_runtime r)
  = ([EvOpen "rb"; EvWrap; EvLoad [] ∅; EvDetach; EvClose],
     [[VStr "x"]], Closed)
  ∧ consume 2 (@reader_iter number_runtime r)
    = ([EvOpen "rb"; EvWrap; EvLoad [] ∅; EvDetach; EvClose],
       [[VStr "x"]], Raised TypeError).
Proof.
  intros r.
  assert (({["header" := ObjFields ["x"]]} : gmap string pyobj) !! "header"
          = Some (ObjFields ["x"])) as Hh by (vm_compute; reflexivity).
  destruct (proj1 (@shape_error_after_explicit_header number_runtime
                     {| src_name := "five.json"; src_bytes := "5" |} []
                     {["header" := ObjFields ["x"]]} (VInt 5) eq_refl eq_refl)
              ["x"] Hh) as [H1 H2].
  specialize (H2 0). vm_compute in H1, H2. vm_compute. by split.
Defined.

(** ** Empty headers *)

Lemma exhaust_yield_rows_nil_header records :
  exhaust (yield_rows [] records) =
  ([], replicate (length records) [], Exhausted).
Proof. induction records as [|o records IH]; simpl; [done|by rewrite IH]. Qed.

Lemma collect_keys_no_mapping records :
  Forall (λ o, has_keys o = false) records → collect_keys records = ∅.
Proof.
  unfold collect_keys. generalize (∅ : gset string) as acc.
  induction records as [|o records IH]; intros acc Hall; [done|].
  apply Forall_cons in Hall as [Ho Hall]. simpl. rewrite Ho. by apply IH.
Qed.

(** X6.  When the header in use is empty, every record yields the empty
    row and nothing raises, whatever the records are.  That is the case
    for an explicit empty header, and for a derived header when no record
    of the sequence is a mapping: an array of numbers, texts or arrays
    is read as an empty header followed by one empty row per element. *)
Theorem empty_header_gives_empty_rows `{Runtime} r records :
  records_read r = Ok records →
  header_arg r = ObjFields []
  ∨ (header_arg r = ObjValue VNone
     ∧ Forall (λ o, has_keys o = false) records) →
  exhaust (reader_iter r) =
  (reader_trace r, replicate (S (length records)) [], Exhausted).
Proof.
  intros Hrec Hhdr.
  assert (chosen_header r records = Ok []) as Hch.
  { unfold chosen_header. destruct Hhdr as [-> | [-> Hall]]; [done|].
    simpl. unfold derive_header. rewrite collect_keys_no_mapping by done.
    unfold sorted. by rewrite elements_empty. }
  destruct (reader_body r _ _ Hrec Hch) as [_ ->].
  by rewrite exhaust_yield_rows_nil_header.
Qed.

Lemma empty_header_gives_empty_rows_witness :
  exhaust (@reader_iter (Demo.runtime false)
             (FromDicts [VInt 1; VStr "ab"; VList [VStr "a"; VInt 1]] None))
  = ([], [[]; []; []; []], Exhausted).
Proof.
  apply (@empty_header_gives_empty_rows (Demo.runtime false)
           (FromDicts [VInt 1; VStr "ab"; VList [VStr "a"; VInt 1]] None)
           [VInt 1; VStr "ab"; VList [VStr "a"; VInt 1]] eq_refl).
  right. split; [reflexivity|]. by repeat constructor.
Defined.

(** ** The derived header *)

Lemma dict_get_Some_key d k v : dict_get d k = Some v → k ∈ d.*1.
Proof.
  induction d as [|[k' v'] d IH]; simpl; [done|].
  destruct (String.eqb k k') eqn:E.
  - apply String.eqb_eq in E as ->. intros _. apply list_elem_of_here.
  - intros Hd. apply list_elem_of_further. by apply IH.
Qed.

(** X7.  The derived header depends only on which keys occur in the
    mapping records: two record sequences with the same keys, in
    whatever order and however often, get the same header. *)
Theorem derived_header_depends_only_on_keys records1 records2 :
  (∀ f, (∃ d, VDict d ∈ records1 ∧ f ∈ d.*1)
        ↔ (∃ d, VDict d ∈ records2 ∧ f ∈ d.*1)) →
  derive_header records1 = derive_header records2.
Proof.
  intros Hkeys. unfold derive_header. f_equal.
  apply leibniz_equiv, set_equiv. intros f.
  by rewrite !elem_of_collect_keys.
Qed.

Lemma derived_header_depends_only_on_keys_witness :
  derive_header [VDict [("b", VInt 1); ("a", VInt 2)]; VInt 3;
                 VDict [("c", VNone)]]
  = derive_header [VDict [("c", VInt 0); ("a", VInt 0)];
                   VDict [("a", VInt 1); ("b", VInt 1)]].
Proof.
  apply derived_header_depends_only_on_keys. intros f.
  rewrite <- !elem_of_collect_keys.
  assert (collect_keys [VDict [("b", VInt 1); ("a", VInt 2)]; VInt 3;
                        VDict [("c", VNone)]]
          = collect_keys [VDict [("c", VInt 0); ("a", VInt 0)];
                          VDict [("a", VInt 1); ("b", VInt 1)]]) as ->
    by (vm_compute; reflexivity).
  done.
Defined.

(** X8.  A derived header loses nothing: every entry of a mapping record
    of the sequence is found in the record's row, at the position its key
    has in the header. *)
Theorem derived_header_keeps_every_entry records d k v :
  VDict d ∈ records →
  dict_get d k = Some v →
  ∃ i row,
    derive_header records !! i = Some k
    ∧ project (VDict d) (derive_header records) = Ok row
    ∧ row !! i = Some v.
Proof.
  intros Hd Hk.
  assert (k ∈ derive_header records) as Hin.
  { unfold derive_header. rewrite elem_of_sorted, elem_of_collect_keys.
    exists d. split; [done|]. by eapply dict_get_Some_key. }
  apply list_elem_of_lookup in Hin as [i Hi].
  exists i, (row_of_record VNone d (derive_header records)).
  split; [done|]. split; [apply project_dict|].
  unfold row_of_record. rewrite list_lookup_fmap, Hi. simpl. by rewrite Hk.
Qed.

Lemma derived_header_keeps_every_entry_witness :
  ∃ i row,
    derive_header [VDict [("a", VInt 1); ("b", VInt 2)];
                   VDict [("b", VInt 3); ("c", VInt 4)]] !! i = Some "c"
    ∧ project (VDict [("b", VInt 3); ("c", VInt 4)])
        (derive_header [VDict [("a", VInt 1); ("b", VInt 2)];
                        VDict [("b", VInt 3); ("c", VInt 4)]]) = Ok row
    ∧ row !! i = Some (VInt 4).
Proof.
  apply derived_header_keeps_every_entry; [|reflexivity].
  apply list_elem_of_further, list_elem_of_here.
Defined.

(** ** Records that are texts or lists *)

Lemma prefix_iff f s : String.prefix f s = true ↔ ∃ b, s = f +:+ b.
Proof.
  revert f. induction s as [|c s IH]; intros [|a f]; simpl.
  - split; [by exists EmptyString|done].
  - split; [done|]. by intros [b ?].
  - split; [by exists (String c s)|done].
  - destruct (Ascii.ascii_dec a c) as [->|Hne].
    + rewrite IH. split; intros [b Hb]; exists b.
      * by rewrite Hb.
      * by injection Hb.
    + split; [done|]. intros [b Hb]. injection Hb as -> _. done.
Qed.

(** [f in s] on two texts holds exactly when [f] occurs in [s]. *)
Lemma is_substring_iff f s :
  is_substring f s = true ↔ ∃ a b, s = a +:+ f +:+ b.
Proof.
  assert (∀ s, is_substring f s =
               if String.prefix f s then true
               else match s with
                    | EmptyString => false
                    | String _ s' => is_substring f s'
                    end) as Hunfold by (by intros []).
  split.
  - induction s as [|c s IH]; rewrite Hunfold.
    + destruct (String.prefix f EmptyString) eqn:Hp; [|done].
      apply prefix_iff in Hp as [b Hb]. intros _. by exists EmptyString, b.
    + destruct (String.prefix f (String c s)) eqn:Hp.
      * apply prefix_iff in Hp as [b Hb]. intros _. by exists EmptyString, b.
      * intros Hs. destruct (IH Hs) as (a & b & ->). by exists (String c a), b.
  - intros (a & b & ->). induction a as [|c a IH].
    + assert (String.prefix f (f +:+ b) = true) as Hp
        by (apply prefix_iff; by exists b).
      change (EmptyString +:+ f +:+ b) with (f +:+ b).
      by rewrite Hunfold, Hp.
    + change (String c a +:+ f +:+ b) with (String c (a +:+ f +:+ b)).
      rewrite Hunfold. cbv beta iota.
      rewrite IH. by destruct (String.prefix _ _).
Qed.

(** X9.  A record that is a text or a list is a container but no
    mapping.  Its row is [None] in every position as long as no header
    field occurs in the text (is an element of the list); as soon as one
    does, the lookup [o[f]] raises [TypeError].  Nothing else can
    happen. *)
Theorem text_and_list_records s l hdr :
  project (VStr s) hdr =
    (if existsb (λ f, is_substring f s) hdr then Err TypeError
     else Ok (replicate (length hdr) VNone))
  ∧ (∃ has : string → bool,
       (∀ f, has f = true ↔ VStr f ∈ l)
       ∧ project (VList l) hdr =
         (if existsb has hdr then Err TypeError
          else Ok (replicate (length hdr) VNone)))
  ∧ ∀ f, is_substring f s = true ↔ ∃ a b, s = a +:+ f +:+ b.
Proof.
  split; [|split; [|intros f; apply is_substring_iff]].
  - induction hdr as [|f hdr IH]; [done|]. simpl.
    destruct (is_substring f s); simpl; [done|].
    rewrite IH. by destruct (existsb _ hdr).
  - exists (λ f, existsb (λ e, match e with
                               | VStr s' => String.eqb s' f
                               | _ => false
                               end) l).
    split.
    + intros f. rewrite existsb_exists. setoid_rewrite <- list_elem_of_In.
      split.
      * intros (e & He & Hf). destruct e; try done.
        by apply String.eqb_eq in Hf as ->.
      * intros Hf. exists (VStr f). split; [done|]. apply String.eqb_refl.
    + induction hdr as [|f hdr IH]; [done|]. simpl.
      destruct (existsb _ l); simpl; [done|].
      rewrite IH. by destruct (existsb _ hdr).
Qed.

(** ** Writes that fail *)

(** X11.  The encoder is built before the sink is opened: when the
    [JSONEncoder] constructor raises, [tojson] and [tojsonarrays]
    raise the same exception and the sink is never opened, so whatever it
    held is still there. *)
Theorem refused_encoder_leaves_sink_untouched `{Runtime}
    t sink prefix suffix output_header args kwargs e :
  JSONEncoder args kwargs = Err e →
  call (tojson t sink prefix suffix args kwargs) = ([], Raised e)
  ∧ call (tojsonarrays t sink prefix suffix output_header args kwargs)
    = ([], Raised e).
Proof.
  intros Henc. rewrite tojson_unfold, tojsonarrays_unfold.
  by rewrite !(call_writejson_refused _ _ _ _ _ _ _ Henc).
Qed.

Lemma refused_encoder_leaves_sink_untouched_witness :
  call (@tojson strict_runtime Demo.foo_bar Demo.sink None None []
          {["bogus" := ObjValue (VInt 1)]}) = ([], Raised TypeError)
  ∧ call (@tojsonarrays strict_runtime Demo.foo_bar Demo.sink None None true []
            {["bogus" := ObjValue (VInt 1)]}) = ([], Raised TypeError).
Proof.
  apply (@refused_encoder_leaves_sink_untouched strict_runtime).
  vm_compute. reflexivity.
Defined.

(** X12.  When the encoder raises part-way, the write is not undone: the
    sink has received the prefix and every chunk produced before the
    exception, the suffix is not written, the wrapper is detached and the
    sink closed, and the caller gets the encoder's exception. *)
Theorem interrupted_write_is_partial `{Runtime}
    sink obj prefix suffix args kwargs enc e :
  JSONEncoder args kwargs = Ok enc →
  (enc obj).2 = Some e →
  call (_writejson sink obj prefix suffix args kwargs) =
    (scoped PY2 "wb" (EvWrite <$> (opt_text prefix ++ (enc obj).1)), Raised e)
  ∧ output (_writejson sink obj prefix suffix args kwargs) =
    opt_string prefix +:+ concat_text (enc obj).1.
Proof.
  intros Henc He. unfold output.
  rewrite (call_writejson _ _ _ _ _ _ _ Henc).
  unfold pieces, write_outcome. rewrite He, app_nil_r. split; [done|].
  simpl. by rewrite written_scoped, concat_text_app, concat_opt_text.
Qed.

Lemma interrupted_write_is_partial_witness :
  call (@_writejson (Demo.runtime false) Demo.sink
          (VList [VInt 1; VFloat 0; VInt 2]) (Some "/*x*/") (Some "/*y*/") [] ∅)
  = ([EvOpen "wb"; EvWrap; EvWrite "/*x*/"; EvWrite "["; EvWrite "1";
      EvWrite ", "; EvDetach; EvClose], Raised ValueError)
  ∧ output (@_writejson (Demo.runtime false) Demo.sink
              (VList [VInt 1; VFloat 0; VInt 2]) (Some "/*x*/") (Some "/*y*/")
              [] ∅)
    = "/*x*/[1, ".
Proof.
  apply (@interrupted_write_is_partial (Demo.runtime false) Demo.sink
           (VList [VInt 1; VFloat 0; VInt 2]) (Some "/*x*/") (Some "/*y*/")
           [] ∅ Demo.chunks ValueError);
    reflexivity.
Defined.

(** ** Rows follow records *)




